(** * A benchmark script: timing harness over [fs] and an embedded SQL store

    Shallow embedding of the entry point [bench.js] (functions [bench],
    [bench_simple] and the top-level call) and of [sql_bench.js]
    ([bench_sql], [createSchema], [insertTestData]).

    The JavaScript is embedded as an error/state monad over a [World]:
    the monotonic clock position, standard output and standard error, and
    the resources the libraries act on (a file store and the connection
    slot of the SQL engine).  Every call into [fs] or [sqlite] is one
    [call]: it may be made to fail by the environment ([inject]), leaving
    part of its work done ([progress]), or fail on its own (missing file,
    SQL error), and it is recorded in an event log. *)

From Stdlib Require Import ZArith Ascii DecimalString DecimalZ DecimalPos.
From stdpp Require Import gmap strings list fin_maps.

Local Open Scope Z_scope.

(** ** Errors, call sites, events *)

(** Native errors of the runtime and of the SQL engine; [Fault] is an error
    injected by the environment (disk full, permission denied, ...). *)
Inductive error :=
  | ENOENT (syscall path : string)
  | SQLITE_ERROR (msg : string)
  | SQLITE_CONSTRAINT (msg : string)
  | SQLITE_NOTADB
  | SQLITE_MISUSE
  | SQLITE_READONLY_DBMOVED
  | Fault (msg : string).

(** The sixteen library calls of the program, in program order. *)
Inductive site :=
  | SWrite            (* fs.writeFileSync(testFile, testData)  bench.js:30 *)
  | SRead             (* fs.readFileSync(testFile, 'utf8')     bench.js:36 *)
  | SUnlinkTxt        (* fs.unlinkSync(testFile)               bench.js:41 *)
  | SOpen             (* open({filename: dbPath, ...})         sql_bench.js:12 *)
  | SDrop             (* db.exec(DROP ...)                     sql_bench.js:142 *)
  | SCreate           (* db.exec(CREATE ...)                   sql_bench.js:151 *)
  | SInsCustomers     (* db.exec(INSERT INTO customers ...)    sql_bench.js:197 *)
  | SInsCategories    (* db.exec(INSERT INTO categories ...)   sql_bench.js:205 *)
  | SInsProducts      (* db.exec(INSERT INTO products ...)     sql_bench.js:216 *)
  | SInsOrders        (* db.exec(INSERT INTO orders ...; ...)  sql_bench.js:225 *)
  | SJoin             (* db.all(join + window)                 sql_bench.js:31 *)
  | SCte              (* db.all(recursive CTE)                 sql_bench.js:61 *)
  | SAgg              (* db.all(aggregation)                   sql_bench.js:89 *)
  | SSearch           (* db.all(LIKE search)                   sql_bench.js:116 *)
  | SClose            (* db.close()                            sql_bench.js:133 *)
  | SUnlinkDb.        (* fs.unlinkSync(dbPath)                 sql_bench.js:134 *)

#[global] Instance site_eq_dec : EqDecision site.
Proof. solve_decision. Defined.

Inductive event :=
  | Call (s : site) (path : string)   (* the call at [s] started, on file [path] *)
  | Raise (s : site) (e : error).     (* the call at [s] raised [e] *)

(** ** JavaScript strings and UTF-8

    A JavaScript string is a sequence of UTF-16 code units; a file holds
    octets.  [fs.writeFileSync(path, string)] encodes as UTF-8 and
    [fs.readFileSync(path, 'utf8')] decodes, replacing ill-formed input by
    U+FFFD. *)

Definition js_string := list Z.

Definition js_lit (s : string) : js_string :=
  map (fun a => Z.of_N (Ascii.N_of_ascii a)) (String.list_ascii_of_string s).

(** [String.prototype.repeat] *)
Definition js_repeat (s : js_string) (count : N) : js_string :=
  concat (List.repeat s (N.to_nat count)).

Definition is_high_surrogate (u : Z) : bool := (0xD800 <=? u) && (u <=? 0xDBFF).
Definition is_low_surrogate (u : Z) : bool := (0xDC00 <=? u) && (u <=? 0xDFFF).

Definition utf8_of_code_point (cp : Z) : list Z :=
  if cp <? 0x80 then [cp]
  else if cp <? 0x800 then
    [Z.lor 0xC0 (Z.shiftr cp 6); Z.lor 0x80 (Z.land cp 0x3F)]
  else if cp <? 0x10000 then
    [Z.lor 0xE0 (Z.shiftr cp 12);
     Z.lor 0x80 (Z.land (Z.shiftr cp 6) 0x3F);
     Z.lor 0x80 (Z.land cp 0x3F)]
  else
    [Z.lor 0xF0 (Z.shiftr cp 18);
     Z.lor 0x80 (Z.land (Z.shiftr cp 12) 0x3F);
     Z.lor 0x80 (Z.land (Z.shiftr cp 6) 0x3F);
     Z.lor 0x80 (Z.land cp 0x3F)].

Fixpoint utf8_encode (s : js_string) : list Z :=
  match s with
  | [] => []
  | u :: rest =>
      if is_high_surrogate u then
        match rest with
        | v :: rest' =>
            if is_low_surrogate v then
              utf8_of_code_point
                (0x10000 + Z.shiftl (u - 0xD800) 10 + (v - 0xDC00))
                ++ utf8_encode rest'
            else utf8_of_code_point 0xFFFD ++ utf8_encode rest
        | [] => utf8_of_code_point 0xFFFD
        end
      else if is_low_surrogate u then utf8_of_code_point 0xFFFD ++ utf8_encode rest
      else utf8_of_code_point u ++ utf8_encode rest
  end.

(** The decoder is the usual one-octet-at-a-time machine: the code point
    under construction, how many continuation octets are still needed, and
    the range the next octet has to lie in. *)
Record dec_state := {
  dec_cp : Z;
  dec_needed : nat;
  dec_lower : Z;
  dec_upper : Z
}.

Definition dec_init : dec_state :=
  {| dec_cp := 0; dec_needed := 0; dec_lower := 0x80; dec_upper := 0xBF |}.

Definition utf16_of_code_point (cp : Z) : js_string :=
  if cp <? 0x10000 then [cp]
  else [0xD800 + Z.shiftr (cp - 0x10000) 10; 0xDC00 + Z.land (cp - 0x10000) 0x3FF].

Definition dec_lead (b : Z) : js_string * dec_state :=
  if b <? 0x80 then ([b], dec_init)
  else if (0xC2 <=? b) && (b <=? 0xDF) then
    ([], {| dec_cp := Z.land b 0x1F; dec_needed := 1;
            dec_lower := 0x80; dec_upper := 0xBF |})
  else if (0xE0 <=? b) && (b <=? 0xEF) then
    ([], {| dec_cp := Z.land b 0xF; dec_needed := 2;
            dec_lower := if b =? 0xE0 then 0xA0 else 0x80;
            dec_upper := if b =? 0xED then 0x9F else 0xBF |})
  else if (0xF0 <=? b) && (b <=? 0xF4) then
    ([], {| dec_cp := Z.land b 0x7; dec_needed := 3;
            dec_lower := if b =? 0xF0 then 0x90 else 0x80;
            dec_upper := if b =? 0xF4 then 0x8F else 0xBF |})
  else ([0xFFFD], dec_init).

Definition dec_step (st : dec_state) (b : Z) : js_string * dec_state :=
  match dec_needed st with
  | O => dec_lead b
  | S n =>
      if (b <? dec_lower st) || (dec_upper st <? b) then
        let '(o, st') := dec_lead b in (0xFFFD :: o, st')
      else
        let cp := Z.lor (Z.shiftl (dec_cp st) 6) (Z.land b 0x3F) in
        match n with
        | O => (utf16_of_code_point cp, dec_init)
        | S _ => ([], {| dec_cp := cp; dec_needed := n;
                         dec_lower := 0x80; dec_upper := 0xBF |})
        end
  end.

Fixpoint utf8_decode_from (st : dec_state) (bs : list Z) : js_string :=
  match bs with
  | [] => match dec_needed st with O => [] | S _ => [0xFFFD] end
  | b :: bs' => let '(o, st') := dec_step st b in o ++ utf8_decode_from st' bs'
  end.

Definition utf8_decode (bs : list Z) : js_string := utf8_decode_from dec_init bs.

(** BigInt to string, as a template literal prints it. *)
Definition bigint_to_string (z : Z) : string := NilZero.string_of_int (Z.to_int z).

(** ** The embedded SQL engine

    The statements the program sends are literal text; they are embedded as
    syntax trees.  Foreign keys are recorded with the table but not enforced:
    the engine enforces them only after [PRAGMA foreign_keys = ON], which the
    program never issues. *)

Inductive value :=
  | VNull
  | VInt (z : Z)
  | VText (s : string)
  | VDec (units : Z) (scale : nat)     (* units / 10^scale, as 1299.99 = VDec 129999 2 *)
  | VCurrentTimestamp.                 (* the value DEFAULT CURRENT_TIMESTAMP stores *)

#[global] Instance value_eq_dec : EqDecision value.
Proof. solve_decision. Defined.

Record column := {
  col_name : string;
  col_type : string;
  col_primary_key : bool;
  col_not_null : bool;
  col_unique : bool;
  col_default : option value
}.

Record foreign_key := {
  fk_column : string;
  fk_ref_table : string;
  fk_ref_column : string
}.

Definition row := list value.

Record table := {
  tbl_columns : list column;
  tbl_foreign_keys : list foreign_key;
  tbl_rows : list row
}.

Inductive stmt :=
  | DropTableIfExists (name : string)
  | CreateTable (name : string) (cols : list column) (fks : list foreign_key)
  | InsertInto (name : string) (cols : list string) (rows : list row).

Inductive query :=
  | SelectAll (name : string)                       (* SELECT * FROM name *)
  | SelectCount (name : string)                     (* SELECT COUNT( * ) FROM name *)
  | SelectBench (reads : list (string * list string)).
      (* one of the four benchmark queries, by the tables and columns it reads;
         its rows are not computed, the program never looks at them *)

Inductive query_result :=
  | Rows (rs : list row)
  | Unevaluated.

Definition is_null (v : value) : bool :=
  match v with VNull => true | _ => false end.

Definition index_of (c : string) (cols : list string) : option nat :=
  fst <$> list_find (fun c' => c' = c) cols.

Definition has_column (t : table) (c : string) : bool :=
  bool_decide (c ∈ map col_name (tbl_columns t)).

(** The value an INSERT stores in column [c] before rowid assignment. *)
Definition cell (cols : list string) (vals : row) (c : column) : value :=
  match index_of (col_name c) cols with
  | Some i => nth i vals VNull
  | None => match col_default c with Some v => v | None => VNull end
  end.

Definition column_values (i : nat) (rows : list row) : list value :=
  map (fun r => nth i r VNull) rows.

Definition int_of_value (v : value) : Z :=
  match v with VInt z => z | _ => 0 end.

(** An INTEGER PRIMARY KEY left NULL gets one more than the largest key. *)
Definition next_rowid (i : nat) (rows : list row) : Z :=
  1 + fold_right Z.max 0 (map int_of_value (column_values i rows)).

Definition is_rowid (c : column) : bool :=
  col_primary_key c && bool_decide (col_type c = "INTEGER"%string).

Definition fill_row (t : table) (cols : list string) (vals : row) : row :=
  imap (fun i c =>
          let v := cell cols vals c in
          if is_rowid c && is_null v then VInt (next_rowid i (tbl_rows t)) else v)
       (tbl_columns t).

Fixpoint check_columns (name : string) (i : nat) (cs : list column)
    (r : row) (old : list row) : option error :=
  match cs with
  | [] => None
  | c :: cs' =>
      let v := nth i r VNull in
      if (col_not_null c || col_primary_key c) && is_null v then
        Some (SQLITE_CONSTRAINT
                ("NOT NULL constraint failed: " ++ name ++ "." ++ col_name c))
      else if (col_unique c || col_primary_key c) && negb (is_null v)
              && bool_decide (v ∈ column_values i old) then
        Some (SQLITE_CONSTRAINT
                ("UNIQUE constraint failed: " ++ name ++ "." ++ col_name c))
      else check_columns name (S i) cs' r old
  end.

(** Insert the rows one by one; the first violation aborts the statement. *)
Fixpoint insert_rows (name : string) (cols : list string) (rows : list row)
    (t : table) : error + table :=
  match rows with
  | [] => inr t
  | vals :: rows' =>
      if bool_decide (length vals = length cols) then
        let r := fill_row t cols vals in
        match check_columns name 0 (tbl_columns t) r (tbl_rows t) with
        | Some e => inl e
        | None =>
            insert_rows name cols rows'
              {| tbl_columns := tbl_columns t;
                 tbl_foreign_keys := tbl_foreign_keys t;
                 tbl_rows := tbl_rows t ++ [r] |}
        end
      else inl (SQLITE_ERROR "values for columns mismatch")
  end.

Definition exec_stmt (s : stmt) (d : gmap string table) : error + gmap string table :=
  match s with
  | DropTableIfExists name => inr (delete name d)
  | CreateTable name cols fks =>
      match d !! name with
      | Some _ => inl (SQLITE_ERROR ("table " ++ name ++ " already exists"))
      | None => inr (<[name := {| tbl_columns := cols;
                                  tbl_foreign_keys := fks;
                                  tbl_rows := [] |}]> d)
      end
  | InsertInto name cols rows =>
      match d !! name with
      | None => inl (SQLITE_ERROR ("no such table: " ++ name))
      | Some t =>
          match list_find (fun c => negb (has_column t c) = true) cols with
          | Some (_, c) =>
              inl (SQLITE_ERROR ("table " ++ name ++ " has no column named " ++ c))
          | None =>
              match insert_rows name cols rows t with
              | inl e => inl e
              | inr t' => inr (<[name := t']> d)
              end
          end
      end
  end.

(** A batch runs statement by statement; each statement commits on its own,
    so an error leaves the work of the statements before it in place. *)
Fixpoint exec_stmts (ss : list stmt) (d : gmap string table)
    : gmap string table * option error :=
  match ss with
  | [] => (d, None)
  | s :: ss' =>
      match exec_stmt s d with
      | inl e => (d, Some e)
      | inr d' => exec_stmts ss' d'
      end
  end.

Fixpoint check_reads (reads : list (string * list string)) (d : gmap string table)
    : option error :=
  match reads with
  | [] => None
  | (name, cols) :: reads' =>
      match d !! name with
      | None => Some (SQLITE_ERROR ("no such table: " ++ name))
      | Some t =>
          if forallb (has_column t) cols then check_reads reads' d
          else Some (SQLITE_ERROR ("no such column in " ++ name))
      end
  end.

Definition eval_query (q : query) (d : gmap string table) : error + query_result :=
  match q with
  | SelectAll name =>
      match d !! name with
      | None => inl (SQLITE_ERROR ("no such table: " ++ name))
      | Some t => inr (Rows (tbl_rows t))
      end
  | SelectCount name =>
      match d !! name with
      | None => inl (SQLITE_ERROR ("no such table: " ++ name))
      | Some t => inr (Rows [[VInt (Z.of_nat (length (tbl_rows t)))]])
      end
  | SelectBench reads =>
      match check_reads reads d with
      | Some e => inl e
      | None => inr Unevaluated
      end
  end.

(** ** Resources: the file store and the engine's connection *)

(** A file is either plain octets or a database image written by the
    engine.  A zero-length file opens as an empty database; any other plain
    file is refused by the engine.  An image holds tables only: databases
    with views, indexes or triggers of their own are not represented, and
    nothing below speaks about them. *)
Inductive file :=
  | Bytes (content : list Z)
  | SqliteImage (d : gmap string table).

Record Resources := {
  fs : gmap string file;
  conn : option string          (* file name of the open connection, if any *)
}.

(** What the run is given from outside. *)
Record Env := {
  clock : nat -> Z;                       (* the n-th reading of process.hrtime.bigint() *)
  tmpdir : string;                        (* os.tmpdir() *)
  inject : site -> option error;          (* calls the environment makes fail *)
  progress : site -> nat;                 (* how far such a call had got, see [call] *)
  sqlite_file_bytes : gmap string table -> list Z   (* on-disk format, left open *)
}.

Record World := {
  now : nat;                    (* clock readings taken so far *)
  stdout : list string;
  stderr : list error;
  events : list event;
  res : Resources
}.

Inductive result (A : Type) :=
  | Ok (a : A) (w : World)
  | Throw (e : error) (w : World).
Arguments Ok {A} a w.
Arguments Throw {A} e w.

Definition M (A : Type) : Type := World -> result A.

Definition ret {A} (a : A) : M A := fun w => Ok a w.

Definition bind {A B} (m : M A) (k : A -> M B) : M B :=
  fun w => match m w with
           | Ok a w' => k a w'
           | Throw e w' => Throw e w'
           end.

Declare Scope js_scope.
Delimit Scope js_scope with js.
Notation "x <- m ;; k" := (bind m (fun x => k))
  (at level 100, m at next level, right associativity) : js_scope.
Notation "m ;; k" := (bind m (fun _ => k))
  (at level 100, right associativity) : js_scope.

Definition world_of {A} (r : result A) : World :=
  match r with Ok _ w => w | Throw _ w => w end.

Definition log (ev : event) (w : World) : World :=
  {| now := now w; stdout := stdout w; stderr := stderr w;
     events := events w ++ [ev]; res := res w |}.

Definition set_res (r : Resources) (w : World) : World :=
  {| now := now w; stdout := stdout w; stderr := stderr w;
     events := events w; res := r |}.

Definition file_bytes (bytes_of_image : gmap string table -> list Z) (f : file) : list Z :=
  match f with
  | Bytes b => b
  | SqliteImage d => bytes_of_image d
  end.

(** *** [path] *)

(** The pieces of a path between its separators: ["a//b"] gives
    ["a"; ""; "b"], a trailing separator gives a last piece [""]. *)
Fixpoint segments (p : string) : list string :=
  match p with
  | EmptyString => [EmptyString]
  | String a p' =>
      if Ascii.eqb a "/"%char then EmptyString :: segments p'
      else match segments p' with
           | x :: xs => String a x :: xs
           | [] => [String a EmptyString]
           end
  end.

(** Resolve [.] and [..] and drop empty pieces, left to right; [stack] is
    the path so far, innermost piece first. *)
Fixpoint norm_segments (allow_above : bool) (segs stack : list string) : list string :=
  match segs with
  | [] => rev stack
  | seg :: rest =>
      if String.eqb seg "" || String.eqb seg "." then
        norm_segments allow_above rest stack
      else if String.eqb seg ".." then
        match stack with
        | top :: below =>
            if String.eqb top ".." then
              norm_segments allow_above rest
                (if allow_above then ".."%string :: stack else stack)
            else norm_segments allow_above rest below
        | [] =>
            norm_segments allow_above rest
              (if allow_above then [".."%string] else [])
        end
      else norm_segments allow_above rest (seg :: stack)
  end.

Fixpoint join_slash (segs : list string) : string :=
  match segs with
  | [] => ""
  | [x] => x
  | x :: rest => x +:+ "/" +:+ join_slash rest
  end.

(** [path.normalize] (POSIX) *)
Definition path_normalize (p : string) : string :=
  match p with
  | EmptyString => "."
  | String a _ =>
      let absolute := Ascii.eqb a "/"%char in
      let segs := segments p in
      let trailing := bool_decide (last segs = Some ""%string) in
      match join_slash (norm_segments (negb absolute) segs []) with
      | EmptyString => if absolute then "/" else if trailing then "./" else "."
      | body => (if absolute then "/" else "") +:+ body
                +:+ (if trailing then "/" else "")
      end
  end.

(** [path.join] of two arguments: empty arguments are skipped, the rest
    joined by the separator and normalised. *)
Definition path_join (dir name : string) : string :=
  match dir, name with
  | EmptyString, EmptyString => "."
  | EmptyString, _ => path_normalize name
  | _, EmptyString => path_normalize dir
  | _, _ => path_normalize (dir +:+ "/" +:+ name)
  end.

(** *** [fs] *)

Definition write_file (path : string) (data : js_string) (r : Resources)
    : Resources * (error + unit) :=
  ({| fs := <[path := Bytes (utf8_encode data)]> (fs r); conn := conn r |}, inr tt).

(** A write that failed on the way.  [n = 0]: the file could not even be
    opened, nothing changed.  [n = S k]: the file was created or truncated
    and the first [k] octets were written. *)
Definition write_file_partial (path : string) (data : js_string) (n : nat)
    (r : Resources) : Resources :=
  match n with
  | O => r
  | S k => {| fs := <[path := Bytes (take k (utf8_encode data))]> (fs r);
              conn := conn r |}
  end.

Definition read_file (bytes_of_image : gmap string table -> list Z)
    (path : string) (r : Resources) : Resources * (error + js_string) :=
  match fs r !! path with
  | None => (r, inl (ENOENT "open" path))
  | Some f => (r, inr (utf8_decode (file_bytes bytes_of_image f)))
  end.

Definition unlink_file (path : string) (r : Resources) : Resources * (error + unit) :=
  match fs r !! path with
  | None => (r, inl (ENOENT "unlink" path))
  | Some _ => ({| fs := delete path (fs r); conn := conn r |}, inr tt)
  end.

(** *** [sqlite] *)

(** [open] creates the file when it is missing and returns the handle. *)
Definition sqlite_open (filename : string) (r : Resources)
    : Resources * (error + string) :=
  ({| fs := match fs r !! filename with
            | None => <[filename := Bytes []]> (fs r)
            | Some _ => fs r
            end;
      conn := Some filename |}, inr filename).

(** The database a handle sees: the image in its file. *)
Definition load (db : string) (r : Resources) : error + gmap string table :=
  if bool_decide (conn r = Some db) then
    match fs r !! db with
    | None => inl SQLITE_READONLY_DBMOVED
    | Some (Bytes []) => inr ∅
    | Some (Bytes (_ :: _)) => inl SQLITE_NOTADB
    | Some (SqliteImage d) => inr d
    end
  else inl SQLITE_MISUSE.

(** The rollback journal of a database file: the engine creates it beside
    the file when a write transaction starts and removes it when the
    transaction ends. *)
Definition journal_path (db : string) : string := db +:+ "-journal".

(** A finished write: the new image is in the database file, and the
    journal kept during the transaction -- or one found there, left by a
    process that died -- is gone. *)
Definition store (db : string) (d : gmap string table) (r : Resources) : Resources :=
  {| fs := delete (journal_path db) (<[db := SqliteImage d]> (fs r));
     conn := conn r |}.

(** [db.exec], seen once it has returned: the statements ran one by one,
    each in a transaction of its own, up to the first that failed.  The
    journal exists while a statement runs and is gone when it ends, so
    after the batch there is none. *)
Definition sqlite_exec (db : string) (sql : list stmt) (r : Resources)
    : Resources * (error + unit) :=
  match load db r with
  | inl e => (r, inl e)
  | inr d =>
      match exec_stmts sql d with
      | (d', Some e) => (store db d' r, inl e)
      | (d', None) => (store db d' r, inr tt)
      end
  end.

(** A batch the environment failed at its statement number [n] (counted
    from 0, the last one at most): that statement does nothing, the ones
    before it committed one by one, so their work stays. *)
Definition sqlite_exec_partial (db : string) (sql : list stmt) (n : nat)
    (r : Resources) : Resources :=
  match take (Nat.min n (Nat.pred (length sql))) sql with
  | [] => r
  | finished =>
      match load db r with
      | inl _ => r
      | inr d => store db (exec_stmts finished d).1 r
      end
  end.

(** [db.all].  A query writes nothing.  (In the program every query
    follows a finished batch, so it never meets a journal; what the engine
    does with a journal it meets on a first read is not represented.) *)
Definition sqlite_all (db : string) (q : query) (r : Resources)
    : Resources * (error + query_result) :=
  match load db r with
  | inl e => (r, inl e)
  | inr d =>
      match eval_query q d with
      | inl e => (r, inl e)
      | inr rows => (r, inr rows)
      end
  end.

Definition sqlite_close (db : string) (r : Resources) : Resources * (error + unit) :=
  if bool_decide (conn r = Some db) then
    ({| fs := fs r; conn := None |}, inr tt)
  else (r, inl SQLITE_MISUSE).

(** ** The literal SQL of [sql_bench.js] *)

Definition col (name type : string) : column :=
  {| col_name := name; col_type := type; col_primary_key := false;
     col_not_null := false; col_unique := false; col_default := None |}.
Definition primary_key (c : column) : column :=
  {| col_name := col_name c; col_type := col_type c; col_primary_key := true;
     col_not_null := col_not_null c; col_unique := col_unique c;
     col_default := col_default c |}.
Definition not_null (c : column) : column :=
  {| col_name := col_name c; col_type := col_type c;
     col_primary_key := col_primary_key c; col_not_null := true;
     col_unique := col_unique c; col_default := col_default c |}.
Definition unique (c : column) : column :=
  {| col_name := col_name c; col_type := col_type c;
     col_primary_key := col_primary_key c; col_not_null := col_not_null c;
     col_unique := true; col_default := col_default c |}.
Definition default_now (c : column) : column :=
  {| col_name := col_name c; col_type := col_type c;
     col_primary_key := col_primary_key c; col_not_null := col_not_null c;
     col_unique := col_unique c; col_default := Some VCurrentTimestamp |}.
Definition references (c t rc : string) : foreign_key :=
  {| fk_column := c; fk_ref_table := t; fk_ref_column := rc |}.

(** sql_bench.js:142-148 *)
Definition drop_sql : list stmt :=
  [ DropTableIfExists "order_items";
    DropTableIfExists "orders";
    DropTableIfExists "products";
    DropTableIfExists "categories";
    DropTableIfExists "customers" ].

Definition customers_columns : list column :=
  [ primary_key (col "customer_id" "INTEGER");
    not_null (col "name" "TEXT");
    unique (col "email" "TEXT");
    default_now (col "created_at" "TIMESTAMP") ].

Definition categories_columns : list column :=
  [ primary_key (col "category_id" "INTEGER");
    not_null (col "name" "TEXT");
    col "parent_id" "INTEGER" ].

Definition products_columns : list column :=
  [ primary_key (col "product_id" "INTEGER");
    not_null (col "name" "TEXT");
    col "description" "TEXT";
    not_null (col "price" "DECIMAL(10,2)");
    col "category_id" "INTEGER" ].

Definition orders_columns : list column :=
  [ primary_key (col "order_id" "INTEGER");
    col "customer_id" "INTEGER";
    default_now (col "order_date" "TIMESTAMP");
    not_null (col "total_amount" "DECIMAL(10,2)") ].

Definition order_items_columns : list column :=
  [ primary_key (col "order_item_id" "INTEGER");
    col "order_id" "INTEGER";
    col "product_id" "INTEGER";
    not_null (col "quantity" "INTEGER");
    not_null (col "price" "DECIMAL(10,2)") ].

(** sql_bench.js:151-192 *)
Definition create_sql : list stmt :=
  [ CreateTable "customers" customers_columns [];
    CreateTable "categories" categories_columns
      [ references "parent_id" "categories" "category_id" ];
    CreateTable "products" products_columns
      [ references "category_id" "categories" "category_id" ];
    CreateTable "orders" orders_columns
      [ references "customer_id" "customers" "customer_id" ];
    CreateTable "order_items" order_items_columns
      [ references "order_id" "orders" "order_id";
        references "product_id" "products" "product_id" ] ].

(** sql_bench.js:197-202 *)
Definition insert_customers_sql : list stmt :=
  [ InsertInto "customers" ["name"; "email"]%string
      [ [VText "John Doe"; VText "john@example.com"];
        [VText "Jane Smith"; VText "jane@example.com"];
        [VText "Bob Johnson"; VText "bob@example.com"] ] ].

(** sql_bench.js:205-213 *)
Definition insert_categories_sql : list stmt :=
  [ InsertInto "categories" ["name"; "parent_id"]%string
      [ [VText "Electronics"; VNull];
        [VText "Computers"; VInt 1];
        [VText "Smartphones"; VInt 1];
        [VText "Clothing"; VNull];
        [VText "Men"; VInt 4];
        [VText "Women"; VInt 4] ] ].

(** sql_bench.js:216-222 *)
Definition insert_products_sql : list stmt :=
  [ InsertInto "products" ["name"; "description"; "price"; "category_id"]%string
      [ [VText "Premium Laptop"; VText "High-end laptop with premium features";
         VDec 129999 2; VInt 2];
        [VText "Smartphone Pro"; VText "Latest smartphone with exclusive features";
         VDec 99999 2; VInt 3];
        [VText "Classic T-Shirt"; VText "Comfortable cotton t-shirt";
         VDec 2999 2; VInt 5];
        [VText "Designer Dress"; VText "Elegant designer dress";
         VDec 19999 2; VInt 6] ] ].

(** sql_bench.js:225-238 *)
Definition insert_orders_sql : list stmt :=
  [ InsertInto "orders" ["customer_id"; "total_amount"]%string
      [ [VInt 1; VDec 132998 2];
        [VInt 1; VDec 22998 2];
        [VInt 2; VDec 99999 2];
        [VInt 3; VDec 19999 2] ];
    InsertInto "order_items" ["order_id"; "product_id"; "quantity"; "price"]%string
      [ [VInt 1; VInt 1; VInt 1; VDec 129999 2];
        [VInt 1; VInt 3; VInt 1; VDec 2999 2];
        [VInt 2; VInt 3; VInt 2; VDec 2999 2];
        [VInt 3; VInt 2; VInt 1; VDec 99999 2];
        [VInt 4; VInt 4; VInt 1; VDec 19999 2] ] ].

(** sql_bench.js:31-55 *)
Definition join_query : query :=
  SelectBench
    [ ("orders", ["order_id"; "customer_id"; "order_date"; "total_amount"]);
      ("customers", ["name"; "email"; "customer_id"]);
      ("order_items", ["order_id"; "product_id"]);
      ("products", ["name"; "product_id"]) ]%string.

(** sql_bench.js:61-83 *)
Definition cte_query : query :=
  SelectBench [ ("categories", ["category_id"; "name"; "parent_id"]) ]%string.

(** sql_bench.js:89-110 *)
Definition agg_query : query :=
  SelectBench
    [ ("customers", ["name"; "customer_id"]);
      ("orders", ["order_id"; "total_amount"; "customer_id"]);
      ("order_items", ["order_id"]) ]%string.

(** sql_bench.js:116-128 *)
Definition search_query : query :=
  SelectBench
    [ ("products", ["product_id"; "name"; "description"; "price"; "category_id"]);
      ("categories", ["name"; "category_id"]) ]%string.

(** ** The program *)

Section Program.

Variable env : Env.

Definition hrtime_bigint : M Z := fun w =>
  Ok (clock env (now w))
     {| now := S (now w); stdout := stdout w; stderr := stderr w;
        events := events w; res := res w |}.

Definition console_log (line : string) : M unit := fun w =>
  Ok tt {| now := now w; stdout := stdout w ++ [line]; stderr := stderr w;
           events := events w; res := res w |}.


(** One library call at site [s] on file [path]: logged, failed by the
    environment if it says so, otherwise run on the resources.  A call the
    environment fails may have done part of its work: [partial] is what it
    leaves behind. *)
Definition call {A} (s : site) (path : string)
    (f : Resources -> Resources * (error + A))
    (partial : Resources -> Resources) : M A := fun w =>
  let w1 := log (Call s path) w in
  match inject env s with
  | Some e => Throw e (log (Raise s e) (set_res (partial (res w1)) w1))
  | None =>
      match f (res w1) with
      | (r, inl e) => Throw e (log (Raise s e) (set_res r w1))
      | (r, inr a) => Ok a (set_res r w1)
      end
  end.

Definition os_tmpdir : string := tmpdir env.

(** The library calls.  A write and a batch of statements can be failed
    part-way ([progress] says how far they got); a read, a removal, [open]
    and [close] failed by the environment leave the resources as they
    were. *)
Definition fs_writeFileSync (s : site) (path : string) (data : js_string) : M unit :=
  call s path (write_file path data) (write_file_partial path data (progress env s)).
Definition fs_readFileSync (s : site) (path : string) : M js_string :=
  call s path (read_file (sqlite_file_bytes env) path) (fun r => r).
Definition fs_unlinkSync (s : site) (path : string) : M unit :=
  call s path (unlink_file path) (fun r => r).
Definition open (s : site) (filename : string) : M string :=
  call s filename (sqlite_open filename) (fun r => r).
Definition db_exec (s : site) (db : string) (sql : list stmt) : M unit :=
  call s db (sqlite_exec db sql) (sqlite_exec_partial db sql (progress env s)).
Definition db_all (s : site) (db : string) (q : query) : M query_result :=
  call s db (sqlite_all db q) (fun r => r).
Definition db_close (s : site) (db : string) : M unit :=
  call s db (sqlite_close db) (fun r => r).

(** bench.js:17-19; the square roots are computed and dropped. *)
Definition sqrt_loop : M unit := fun w =>
  Ok (N.iter 1000000 (fun _ => tt) tt) w.

Definition testData : js_string := js_repeat (js_lit "x") (1024 * 1024).
Definition testFile : string := path_join os_tmpdir "benchmark_test.txt".
Definition dbPath : string := path_join os_tmpdir "sql_benchmark.db".

Local Open Scope js_scope.

(** bench.js:13-42 *)
Definition bench_simple : M unit :=
  start <- hrtime_bigint ;;
  sqrt_loop ;;
  end_ <- hrtime_bigint ;;
  console_log ("Square root execution time: "
               +:+ bigint_to_string (end_ - start) +:+ " nanoseconds") ;;
  writeStart <- hrtime_bigint ;;
  fs_writeFileSync SWrite testFile testData ;;
  writeEnd <- hrtime_bigint ;;
  console_log ("Write execution time: "
               +:+ bigint_to_string (writeEnd - writeStart) +:+ " nanoseconds") ;;
  readStart <- hrtime_bigint ;;
  readData <- fs_readFileSync SRead testFile ;;
  readEnd <- hrtime_bigint ;;
  console_log ("Read execution time: "
               +:+ bigint_to_string (readEnd - readStart) +:+ " nanoseconds") ;;
  fs_unlinkSync SUnlinkTxt testFile.

(** sql_bench.js:140-193 *)
Definition createSchema (db : string) : M unit :=
  db_exec SDrop db drop_sql ;;
  db_exec SCreate db create_sql.

(** sql_bench.js:195-239 *)
Definition insertTestData (db : string) : M unit :=
  db_exec SInsCustomers db insert_customers_sql ;;
  db_exec SInsCategories db insert_categories_sql ;;
  db_exec SInsProducts db insert_products_sql ;;
  db_exec SInsOrders db insert_orders_sql.

(** sql_bench.js:7-138 *)
Definition bench_sql : M unit :=
  start <- hrtime_bigint ;;
  db <- open SOpen dbPath ;;
  schemaStart <- hrtime_bigint ;;
  createSchema db ;;
  schemaEnd <- hrtime_bigint ;;
  console_log ("Schema creation time: "
               +:+ bigint_to_string (schemaEnd - schemaStart) +:+ " nanoseconds") ;;
  insertStart <- hrtime_bigint ;;
  insertTestData db ;;
  insertEnd <- hrtime_bigint ;;
  console_log ("Data insertion time: "
               +:+ bigint_to_string (insertEnd - insertStart) +:+ " nanoseconds") ;;
  joinStart <- hrtime_bigint ;;
  joinResult <- db_all SJoin db join_query ;;
  joinEnd <- hrtime_bigint ;;
  console_log ("Complex JOIN query time: "
               +:+ bigint_to_string (joinEnd - joinStart) +:+ " nanoseconds") ;;
  cteStart <- hrtime_bigint ;;
  cteResult <- db_all SCte db cte_query ;;
  cteEnd <- hrtime_bigint ;;
  console_log ("Recursive CTE query time: "
               +:+ bigint_to_string (cteEnd - cteStart) +:+ " nanoseconds") ;;
  aggStart <- hrtime_bigint ;;
  aggResult <- db_all SAgg db agg_query ;;
  aggEnd <- hrtime_bigint ;;
  console_log ("Complex aggregation time: "
               +:+ bigint_to_string (aggEnd - aggStart) +:+ " nanoseconds") ;;
  searchStart <- hrtime_bigint ;;
  searchResult <- db_all SSearch db search_query ;;
  searchEnd <- hrtime_bigint ;;
  console_log ("Full-text search time: "
               +:+ bigint_to_string (searchEnd - searchStart) +:+ " nanoseconds") ;;
  db_close SClose db ;;
  fs_unlinkSync SUnlinkDb dbPath ;;
  end_ <- hrtime_bigint ;;
  console_log ("Total SQL benchmark time: "
               +:+ bigint_to_string (end_ - start) +:+ " nanoseconds").

(** bench.js:6-9 *)
Definition bench : M unit :=
  bench_simple ;;
  bench_sql.



End Program.


(** ** The run, seen as a sequence

    The same run described the way the specification describes it: an
    ordered list of calls acting on the resources, and an ordered list of
    timed operation records that become output lines.  [bench_run] below
    shows that the program is exactly this. *)

Record timed := {
  name : string;
  t_start : Z;
  t_end : Z
}.

(** "<label> time: <end - start> nanoseconds" *)
Definition render (t : timed) : string :=
  name t +:+ " time: " +:+ bigint_to_string (t_end t - t_start t) +:+ " nanoseconds".

Definition all_sites : list site :=
  [ SWrite; SRead; SUnlinkTxt; SOpen; SDrop; SCreate; SInsCustomers;
    SInsCategories; SInsProducts; SInsOrders; SJoin; SCte; SAgg; SSearch;
    SClose; SUnlinkDb ].

Definition site_index (s : site) : nat :=
  match s with
  | SWrite => 0 | SRead => 1 | SUnlinkTxt => 2 | SOpen => 3 | SDrop => 4
  | SCreate => 5 | SInsCustomers => 6 | SInsCategories => 7 | SInsProducts => 8
  | SInsOrders => 9 | SJoin => 10 | SCte => 11 | SAgg => 12 | SSearch => 13
  | SClose => 14 | SUnlinkDb => 15
  end%nat.

(** Timing lines already printed when the call at [s] starts. *)
Definition lines_before (s : site) : nat :=
  match s with
  | SWrite => 1 | SRead => 2 | SUnlinkTxt => 3 | SOpen => 3 | SDrop => 3
  | SCreate => 3 | SInsCustomers => 4 | SInsCategories => 4 | SInsProducts => 4
  | SInsOrders => 4 | SJoin => 5 | SCte => 6 | SAgg => 7 | SSearch => 8
  | SClose => 9 | SUnlinkDb => 9
  end%nat.

(** Clock readings already taken when the call at [s] starts. *)
Definition ticks_before (s : site) : nat :=
  match s with
  | SWrite => 3 | SRead => 5 | SUnlinkTxt => 6 | SOpen => 7 | SDrop => 8
  | SCreate => 8 | SInsCustomers => 10 | SInsCategories => 10 | SInsProducts => 10
  | SInsOrders => 10 | SJoin => 12 | SCte => 14 | SAgg => 16 | SSearch => 18
  | SClose => 19 | SUnlinkDb => 19
  end%nat.

Definition discard {A} (x : Resources * (error + A)) : Resources * (error + unit) :=
  match x with
  | (r, inl e) => (r, inl e)
  | (r, inr _) => (r, inr tt)
  end.

Section Sequence.

Variable env : Env.

Definition site_path (s : site) : string :=
  match s with
  | SWrite | SRead | SUnlinkTxt => testFile env
  | _ => dbPath env
  end.

Definition site_action (s : site) (r : Resources) : Resources * (error + unit) :=
  match s with
  | SWrite => write_file (testFile env) (testData) r
  | SRead => discard (read_file (sqlite_file_bytes env) (testFile env) r)
  | SUnlinkTxt => unlink_file (testFile env) r
  | SOpen => discard (sqlite_open (dbPath env) r)
  | SDrop => sqlite_exec (dbPath env) drop_sql r
  | SCreate => sqlite_exec (dbPath env) create_sql r
  | SInsCustomers => sqlite_exec (dbPath env) insert_customers_sql r
  | SInsCategories => sqlite_exec (dbPath env) insert_categories_sql r
  | SInsProducts => sqlite_exec (dbPath env) insert_products_sql r
  | SInsOrders => sqlite_exec (dbPath env) insert_orders_sql r
  | SJoin => discard (sqlite_all (dbPath env) join_query r)
  | SCte => discard (sqlite_all (dbPath env) cte_query r)
  | SAgg => discard (sqlite_all (dbPath env) agg_query r)
  | SSearch => discard (sqlite_all (dbPath env) search_query r)
  | SClose => sqlite_close (dbPath env) r
  | SUnlinkDb => unlink_file (dbPath env) r
  end.

(** What the call at [s] leaves behind when the environment fails it. *)
Definition site_partial (s : site) (r : Resources) : Resources :=
  match s with
  | SWrite => write_file_partial (testFile env) testData (progress env SWrite) r
  | SDrop => sqlite_exec_partial (dbPath env) drop_sql (progress env SDrop) r
  | SCreate => sqlite_exec_partial (dbPath env) create_sql (progress env SCreate) r
  | SInsCustomers =>
      sqlite_exec_partial (dbPath env) insert_customers_sql (progress env SInsCustomers) r
  | SInsCategories =>
      sqlite_exec_partial (dbPath env) insert_categories_sql (progress env SInsCategories) r
  | SInsProducts =>
      sqlite_exec_partial (dbPath env) insert_products_sql (progress env SInsProducts) r
  | SInsOrders =>
      sqlite_exec_partial (dbPath env) insert_orders_sql (progress env SInsOrders) r
  | _ => r
  end.

(** Run the calls in order on the resources; stop at the first that fails. *)
Fixpoint run_sites (ss : list site) (r : Resources)
    : Resources * option (site * error) :=
  match ss with
  | [] => (r, None)
  | s :: ss' =>
      match inject env s with
      | Some e => (site_partial s r, Some (s, e))
      | None =>
          match site_action s r with
          | (r', inl e) => (r', Some (s, e))
          | (r', inr _) => run_sites ss' r'
          end
      end
  end.

(** The ten records of a run whose first clock reading is number [b]. *)
Definition records (b : nat) : list timed :=
  let t (i : nat) := clock env (i + b) in
  [ {| name := "Square root execution"; t_start := t 0%nat; t_end := t 1%nat |};
    {| name := "Write execution"; t_start := t 2%nat; t_end := t 3%nat |};
    {| name := "Read execution"; t_start := t 4%nat; t_end := t 5%nat |};
    {| name := "Schema creation"; t_start := t 7%nat; t_end := t 8%nat |};
    {| name := "Data insertion"; t_start := t 9%nat; t_end := t 10%nat |};
    {| name := "Complex JOIN query"; t_start := t 11%nat; t_end := t 12%nat |};
    {| name := "Recursive CTE query"; t_start := t 13%nat; t_end := t 14%nat |};
    {| name := "Complex aggregation"; t_start := t 15%nat; t_end := t 16%nat |};
    {| name := "Full-text search"; t_start := t 17%nat; t_end := t 18%nat |};
    {| name := "Total SQL benchmark"; t_start := t 6%nat; t_end := t 19%nat |} ].

Definition call_event (s : site) : event := Call s (site_path s).

(** What [bench] returns from world [w], read off the sequence. *)
Definition outcome (w : World) : result unit :=
  match run_sites all_sites (res w) with
  | (r, None) =>
      Ok tt {| now := 20 + now w;
               stdout := stdout w ++ map render (records (now w));
               stderr := stderr w;
               events := events w ++ map call_event all_sites;
               res := r |}
  | (r, Some (s, e)) =>
      Throw e {| now := ticks_before s + now w;
                 stdout := stdout w
                           ++ map render (take (lines_before s) (records (now w)));
                 stderr := stderr w;
                 events := events w
                           ++ map call_event (take (S (site_index s)) all_sites)
                           ++ [Raise s e];
                 res := r |}
  end.

End Sequence.

(** ** The program is the sequence *)

(** ** Vocabulary of the statements *)

Definition bench_tables : list string :=
  ["customers"; "categories"; "products"; "orders"; "order_items"]%string.

(** The schema as a fresh database gets it. *)
Definition schema_db : gmap string table := (exec_stmts create_sql ∅).1.

(** Schema setup on database [d]: the drop batch, then the create batch. *)
Definition recreate (d : gmap string table) : gmap string table :=
  (exec_stmts create_sql (exec_stmts drop_sql d).1).1.

(** The four insert batches of [insertTestData], in order. *)
Definition load_fixture (d : gmap string table) : gmap string table :=
  (exec_stmts insert_orders_sql
     (exec_stmts insert_products_sql
        (exec_stmts insert_categories_sql
           (exec_stmts insert_customers_sql d).1).1).1).1.

Definition fixture_db : gmap string table := load_fixture schema_db.

Definition only_bench_tables (d : gmap string table) : bool :=
  bool_decide (dom d ⊆ list_to_set bench_tables).

Definition stmt_table (s : stmt) : string :=
  match s with
  | DropTableIfExists n => n
  | CreateTable n _ _ => n
  | InsertInto n _ _ => n
  end.

Definition query_tables (q : query) : list string :=
  match q with
  | SelectAll n => [n]
  | SelectCount n => [n]
  | SelectBench reads => map fst reads
  end.

(** Two databases that hold the same tables under the names [ks]. *)
Definition agree (ks : list string) (d1 d2 : gmap string table) : Prop :=
  ∀ k, k ∈ ks → d1 !! k = d2 !! k.

(** A database file the engine can open: absent, empty, or an image (of
    tables only, as every image here). *)
Definition openable (f : option file) : Prop :=
  match f with
  | None => True
  | Some (Bytes b) => b = []
  | Some (SqliteImage _) => True
  end.

Definition parse_bigint (s : string) : option Z :=
  Z.of_int <$> NilZero.int_of_string s.

(** The labels of the timed operations, in program order, and of the total. *)
Definition timed_labels : list string :=
  [ "Square root execution"; "Write execution"; "Read execution";
    "Schema creation"; "Data insertion"; "Complex JOIN query";
    "Recursive CTE query"; "Complex aggregation"; "Full-text search" ]%string.

Definition total_label : string := "Total SQL benchmark".

(** The lines that time the call at [s]: the label of the operation the call
    belongs to, and the total for every call of [bench_sql]. *)
Definition site_lines (s : site) : list string :=
  match s with
  | SWrite => ["Write execution"]
  | SRead => ["Read execution"]
  | SUnlinkTxt => []
  | SOpen | SClose | SUnlinkDb => [total_label]
  | SDrop | SCreate => ["Schema creation"; total_label]
  | SInsCustomers | SInsCategories | SInsProducts | SInsOrders =>
      ["Data insertion"; total_label]
  | SJoin => ["Complex JOIN query"; total_label]
  | SCte => ["Recursive CTE query"; total_label]
  | SAgg => ["Complex aggregation"; total_label]
  | SSearch => ["Full-text search"; total_label]
  end%string.

Definition monotonic (c : nat -> Z) : Prop :=
  ∀ i j : nat, (i <= j)%nat → c i <= c j.

(** *** Paths *)

(** A file name proper: one segment, not empty, not [.] or [..]. *)
Definition plain_name (name : string) : bool :=
  bool_decide (segments name = [name])
  && negb (String.eqb name "") && negb (String.eqb name ".")
  && negb (String.eqb name "..").

(** What [path_join dir name] puts in front of a plain [name]: the
    directory normalised, with one separator after it unless it is empty
    or the root. *)
Definition dir_prefix (dir : string) : string :=
  match dir with
  | EmptyString => ""
  | String a _ =>
      let absolute := Ascii.eqb a "/"%char in
      (if absolute then "/" else "") +:+
      match norm_segments (negb absolute) (segments dir) [] with
      | [] => ""
      | ys => join_slash ys +:+ "/"
      end
  end.

(** The files a call can change: the file it is made on and, for a batch
    of statements, the journal beside the database. *)
Definition site_files (env : Env) (s : site) : list string :=
  match s with
  | SWrite | SRead | SUnlinkTxt => [testFile env]
  | SDrop | SCreate | SInsCustomers | SInsCategories | SInsProducts | SInsOrders =>
      [dbPath env; journal_path (dbPath env)]
  | _ => [dbPath env]
  end.

(** *** Sample environments and worlds *)

(** Nothing is made to fail; the clock advances 1000 ns per reading. *)
Definition quiet_env : Env :=
  {| clock := fun n => 1000 * Z.of_nat n;
     tmpdir := "/tmp";
     inject := fun _ => None;
     progress := fun _ => O;
     sqlite_file_bytes := fun _ => [] |}.

(** The disk is full: the write of the text file fails, leaving the file
    created and empty. *)
Definition disk_full_env : Env :=
  {| clock := fun n => 1000 * Z.of_nat n;
     tmpdir := "/tmp";
     inject := fun s => match s with
                        | SWrite => Some (Fault "ENOSPC: no space left on device")
                        | _ => None
                        end;
     progress := fun _ => 1%nat;
     sqlite_file_bytes := fun _ => [] |}.

Definition world_with (files : gmap string file) (c : option string) : World :=
  {| now := 0; stdout := []; stderr := []; events := [];
     res := {| fs := files; conn := c |} |}.

(** Process start with an empty temp directory. *)
Definition fresh_world : World := world_with ∅ None.

(** Process start with a file that is no database at the database path. *)
Definition garbage_world : World :=
  world_with {[ "/tmp/sql_benchmark.db"%string := Bytes [0x42] ]} None.

(** Process start with a journal beside the database path and no
    database: a process that died in a transaction left the journal, and
    the database was deleted since. *)
Definition stale_journal_world : World :=
  world_with {[ "/tmp/sql_benchmark.db-journal"%string := Bytes [0] ]} None.

(** A connection just opened on a new file. *)
Definition opened_world : World :=
  world_with {[ "/tmp/sql_benchmark.db"%string := Bytes [] ]}
             (Some "/tmp/sql_benchmark.db"%string).

(** A connection on the file an earlier run left behind, fixture loaded. *)
Definition leftover_world : World :=
  world_with {[ "/tmp/sql_benchmark.db"%string := SqliteImage fixture_db ]}
             (Some "/tmp/sql_benchmark.db"%string).

(** *** Vocabulary of the further statements *)

Definition duration (t : timed) : Z := t_end t - t_start t.

Definition sum_durations (ts : list timed) : Z := foldr Z.add 0 (map duration ts).

(** The four queries of [bench_sql], in program order. *)
Definition bench_queries : list query :=
  [ join_query; cte_query; agg_query; search_query ].

(** The sites of [bench_sql] between [open] and [db.close()]. *)
Definition sql_sites : list site :=
  [ SDrop; SCreate; SInsCustomers; SInsCategories; SInsProducts; SInsOrders;
    SJoin; SCte; SAgg; SSearch ].

(** What holds of the resources from [open] to [db.close()]. *)
Definition sql_phase (env : Env) (r : Resources) : Prop :=
  is_Some (fs r !! dbPath env)
  ∧ conn r = Some (dbPath env)
  ∧ fs r !! testFile env = None.

Definition column_index (t : table) (c : string) : option nat :=
  index_of c (map col_name (tbl_columns t)).

(** Every value of the referencing column is NULL or a value of the
    referenced column. *)
Definition fk_holds (d : gmap string table) (t : table) (fk : foreign_key) : bool :=
  match column_index t (fk_column fk), d !! fk_ref_table fk with
  | Some i, Some parent =>
      match column_index parent (fk_ref_column fk) with
      | Some j =>
          forallb (fun v => is_null v
                            || bool_decide (v ∈ column_values j (tbl_rows parent)))
                  (column_values i (tbl_rows t))
      | None => false
      end
  | _, _ => false
  end.

Definition references_hold (d : gmap string table) : bool :=
  forallb (fun n => match d !! n with
                    | Some t => forallb (fk_holds d t) (tbl_foreign_keys t)
                    | None => false
                    end) bench_tables.

(** The tables of the first [n] statements of the CREATE batch. *)
Definition created_tables (n : nat) : list string :=
  take n (map stmt_table create_sql).

(** The statements of the CREATE batch that were finished when the
    environment failed it. *)
Definition create_progress (env : Env) : nat :=
  Nat.min (progress env SCreate) (Nat.pred (length create_sql)).

(** The database is full: the CREATE batch fails after its second
    statement. *)
Definition create_fault_env : Env :=
  {| clock := fun n => 1000 * Z.of_nat n;
     tmpdir := "/tmp";
     inject := fun s => match s with
                        | SCreate => Some (Fault "SQLITE_FULL: database or disk is full")
                        | _ => None
                        end;
     progress := fun _ => 2%nat;
     sqlite_file_bytes := fun _ => [] |}.

(** The read of the text file fails. *)
Definition read_fault_env : Env :=
  {| clock := fun n => 1000 * Z.of_nat n;
     tmpdir := "/tmp";
     inject := fun s => match s with
                        | SRead => Some (Fault "EIO: i/o error, read")
                        | _ => None
                        end;
     progress := fun _ => O;
     sqlite_file_bytes := fun _ => [] |}.

(** *** [bench_sql] on its own *)

(** The calls of [bench_sql], in program order. *)
Definition sql_run_sites : list site := drop 3 all_sites.

(** The seven records of a [bench_sql] whose first clock reading is
    number [b]. *)
Definition sql_records (env : Env) (b : nat) : list timed :=
  let t (i : nat) := clock env (i + b) in
  [ {| name := "Schema creation"; t_start := t 1%nat; t_end := t 2%nat |};
    {| name := "Data insertion"; t_start := t 3%nat; t_end := t 4%nat |};
    {| name := "Complex JOIN query"; t_start := t 5%nat; t_end := t 6%nat |};
    {| name := "Recursive CTE query"; t_start := t 7%nat; t_end := t 8%nat |};
    {| name := "Complex aggregation"; t_start := t 9%nat; t_end := t 10%nat |};
    {| name := "Full-text search"; t_start := t 11%nat; t_end := t 12%nat |};
    {| name := "Total SQL benchmark"; t_start := t 0%nat; t_end := t 13%nat |} ].


(** Process start with an old file at the text file's path. *)
Definition stale_text_world : World :=
  world_with {[ "/tmp/benchmark_test.txt"%string := Bytes [0x6F; 0x6C; 0x64] ]} None.

Ltac finish_run :=
  cbn [ticks_before lines_before site_index take records map Nat.add
       site_partial];
  rewrite <- ?app_assoc; reflexivity.

(** One call of the program against one call of the sequence. *)
Ltac step_run env :=
  lazymatch goal with
  | |- context [inject env ?s] =>
      destruct (inject env s); [ finish_run | ]
  end;
  lazymatch goal with
  | |- context [write_file ?p ?d ?r] => destruct (write_file p d r) as [? [?|?]]
  | |- context [read_file ?b ?p ?r] => destruct (read_file b p r) as [? [?|?]]
  | |- context [unlink_file ?p ?r] => destruct (unlink_file p r) as [? [?|?]]
  | |- context [sqlite_exec ?p ?d ?r] => destruct (sqlite_exec p d r) as [? [?|?]]
  | |- context [sqlite_all ?p ?d ?r] => destruct (sqlite_all p d r) as [? [?|?]]
  | |- context [sqlite_close ?p ?r] => destruct (sqlite_close p r) as [? [?|?]]
  end;
  cbn [discard now stdout stderr events res run_sites site_action];
  [ finish_run | ].

Lemma bench_run env w : bench env w = outcome env w.
Proof.
  destruct w as [n out err evs r].
  unfold bench, bench_simple, bench_sql, createSchema, insertTestData, outcome.
  unfold fs_writeFileSync, fs_readFileSync, fs_unlinkSync, open, db_exec, db_all,
    db_close, call, bind, hrtime_bigint, console_log, sqrt_loop, log, set_res.
  cbn [now stdout stderr events res all_sites run_sites site_action].
  do 3 step_run env.
  destruct (inject env SOpen); [ finish_run | ].
  cbn [sqlite_open discard now stdout stderr events res run_sites site_action].
  do 12 step_run env.
  finish_run.
Qed.

(** ** The model on small inputs *)

Example utf8_encode_samples :
  utf8_encode (js_lit "x") = [0x78]
  ∧ utf8_encode [0xE9] = [0xC3; 0xA9]
  ∧ utf8_encode [0x20AC] = [0xE2; 0x82; 0xAC]
  ∧ utf8_encode [0xD83D; 0xDE00] = [0xF0; 0x9F; 0x98; 0x80]
  ∧ utf8_encode [0xD83D; 0x41] = [0xEF; 0xBF; 0xBD; 0x41].
Proof. repeat split; reflexivity. Qed.

Example utf8_decode_samples :
  utf8_decode [0xC3; 0xA9] = [0xE9]
  ∧ utf8_decode [0xF0; 0x9F; 0x98; 0x80] = [0xD83D; 0xDE00]
  ∧ utf8_decode [0xFF; 0x41] = [0xFFFD; 0x41]
  ∧ utf8_decode [0xE2; 0x82] = [0xFFFD]
  ∧ utf8_decode [0xE2; 0x41] = [0xFFFD; 0x41].
Proof. repeat split; reflexivity. Qed.

Example bigint_to_string_samples :
  bigint_to_string 0 = "0"%string
  ∧ bigint_to_string (-42) = "-42"%string
  ∧ parse_bigint "1048576" = Some 1048576
  ∧ parse_bigint "12a" = None.
Proof. repeat split; reflexivity. Qed.

Example paths_in_tmp :
  testFile quiet_env = "/tmp/benchmark_test.txt"%string
  ∧ dbPath quiet_env = "/tmp/sql_benchmark.db"%string.
Proof. split; reflexivity. Qed.

Example customers_after_fixture :
  tbl_rows <$> fixture_db !! "customers"%string
  = Some [ [VInt 1; VText "John Doe"; VText "john@example.com"; VCurrentTimestamp];
           [VInt 2; VText "Jane Smith"; VText "jane@example.com"; VCurrentTimestamp];
           [VInt 3; VText "Bob Johnson"; VText "bob@example.com"; VCurrentTimestamp] ].
Proof. vm_compute. reflexivity. Qed.

(** The engine refuses what the real one refuses: a second fixture load
    repeats an e-mail address, a second CREATE finds the table, an INSERT
    before the schema finds no table. *)
Example engine_errors :
  (exec_stmts insert_customers_sql fixture_db).2
  = Some (SQLITE_CONSTRAINT "UNIQUE constraint failed: customers.email")
  ∧ (exec_stmts create_sql schema_db).2
    = Some (SQLITE_ERROR "table customers already exists")
  ∧ (exec_stmts insert_orders_sql ∅).2
    = Some (SQLITE_ERROR "no such table: orders")
  ∧ eval_query join_query ∅ = inl (SQLITE_ERROR "no such table: orders").
Proof. repeat split; vm_compute; reflexivity. Qed.

Example lines_of_a_quiet_run :
  map render (records quiet_env 0)
  = [ "Square root execution time: 1000 nanoseconds";
      "Write execution time: 1000 nanoseconds";
      "Read execution time: 1000 nanoseconds";
      "Schema creation time: 1000 nanoseconds";
      "Data insertion time: 1000 nanoseconds";
      "Complex JOIN query time: 1000 nanoseconds";
      "Recursive CTE query time: 1000 nanoseconds";
      "Complex aggregation time: 1000 nanoseconds";
      "Full-text search time: 1000 nanoseconds";
      "Total SQL benchmark time: 13000 nanoseconds" ]%string.
Proof. vm_compute. reflexivity. Qed.

(** A call the environment fails leaves the part of its work that was
    done: the text file created and still empty when the disk is full, two
    of the five tables when the CREATE batch fails at its third statement. *)
Example partial_work_left :
  run_sites disk_full_env all_sites (res fresh_world)
  = ({| fs := {[ "/tmp/benchmark_test.txt"%string := Bytes [] ]}; conn := None |},
     Some (SWrite, Fault "ENOSPC: no space left on device"))
  ∧ load "/tmp/sql_benchmark.db"
      (sqlite_exec_partial "/tmp/sql_benchmark.db" create_sql 2 (res opened_world))
    = inr (exec_stmts (take 2 create_sql) ∅).1
  ∧ tbl_rows <$> (exec_stmts (take 2 create_sql) ∅).1 !! "categories"%string
    = Some []
  ∧ (exec_stmts (take 2 create_sql) ∅).1 !! "products"%string = None.
Proof.
  split; [ reflexivity | ]. repeat split; vm_compute; reflexivity.
Qed.

(** A finished batch leaves no journal, also when it found one. *)
Example journal_removed :
  fs (sqlite_exec "/tmp/sql_benchmark.db" drop_sql
        (sqlite_open "/tmp/sql_benchmark.db" (res stale_journal_world)).1).1
  !! "/tmp/sql_benchmark.db-journal"%string = None
  ∧ journal_path (dbPath quiet_env) = "/tmp/sql_benchmark.db-journal"%string.
Proof. split; [ vm_compute; reflexivity | reflexivity ]. Qed.
(** ** The engine: statements only see the tables they name *)

Lemma agree_insert ks (d1 d2 : gmap string table) n t :
  agree ks d1 d2 → agree ks (<[n := t]> d1) (<[n := t]> d2).
Proof.
  intros H k Hk. destruct (decide (n = k)) as [->|Hne].
  - by rewrite !lookup_insert_eq.
  - rewrite !lookup_insert_ne by done. by apply H.
Qed.

Lemma agree_delete ks (d1 d2 : gmap string table) n :
  agree ks d1 d2 → agree ks (delete n d1) (delete n d2).
Proof.
  intros H k Hk. destruct (decide (n = k)) as [->|Hne].
  - by rewrite !lookup_delete_eq.
  - rewrite !lookup_delete_ne by done. by apply H.
Qed.

Lemma exec_stmt_agree ks s (d1 d2 : gmap string table) :
  stmt_table s ∈ ks → agree ks d1 d2 →
  match exec_stmt s d1, exec_stmt s d2 with
  | inl e1, inl e2 => e1 = e2
  | inr d1', inr d2' => agree ks d1' d2'
  | _, _ => False
  end.
Proof.
  intros Hs H. destruct s as [n|n cols fks|n cols rows]; cbn [exec_stmt stmt_table] in *.
  - by apply agree_delete.
  - rewrite (H n Hs). destruct (d2 !! n); [done|]. by apply agree_insert.
  - rewrite (H n Hs). destruct (d2 !! n) as [t|]; [|done].
    destruct (list_find _ cols) as [[? ?]|]; [done|].
    destruct (insert_rows n cols rows t); [done|]. by apply agree_insert.
Qed.

Lemma exec_stmts_agree ks ss (d1 d2 : gmap string table) :
  Forall (fun s => stmt_table s ∈ ks) ss → agree ks d1 d2 →
  (exec_stmts ss d1).2 = (exec_stmts ss d2).2
  ∧ agree ks (exec_stmts ss d1).1 (exec_stmts ss d2).1.
Proof.
  intros Hss. revert d1 d2.
  induction Hss as [|s ss Hs _ IH]; intros d1 d2 H; [done|].
  cbn [exec_stmts].
  pose proof (exec_stmt_agree ks s d1 d2 Hs H) as Hstep.
  destruct (exec_stmt s d1), (exec_stmt s d2); try done.
  - by subst.
  - by apply IH.
Qed.

Lemma check_reads_agree ks reads (d1 d2 : gmap string table) :
  Forall (fun tc => tc.1 ∈ ks) reads → agree ks d1 d2 →
  check_reads reads d1 = check_reads reads d2.
Proof.
  intros Hr H. induction Hr as [|[n cols] reads Hn _ IH]; [done|].
  cbn [check_reads]. rewrite (H n Hn). destruct (d2 !! n); [|done].
  by rewrite IH.
Qed.

Lemma eval_query_agree ks q (d1 d2 : gmap string table) :
  Forall (fun n => n ∈ ks) (query_tables q) → agree ks d1 d2 →
  eval_query q d1 = eval_query q d2.
Proof.
  intros Hq H. destruct q as [n|n|reads]; cbn [eval_query query_tables] in *.
  - apply Forall_cons in Hq as [Hn _]. by rewrite (H n Hn).
  - apply Forall_cons in Hq as [Hn _]. by rewrite (H n Hn).
  - rewrite (check_reads_agree ks reads d1 d2); [done| |done].
    by apply Forall_fmap in Hq.
Qed.

Lemma in_bench_tables k :
  k ∈ bench_tables →
  k = "customers"%string ∨ k = "categories"%string ∨ k = "products"%string
  ∨ k = "orders"%string ∨ k = "order_items"%string.
Proof.
  unfold bench_tables. intros H.
  repeat (apply elem_of_cons in H as [H|H]; [ tauto | ]).
  by apply elem_of_nil in H.
Qed.

Lemma drop_ok (d : gmap string table) : (exec_stmts drop_sql d).2 = None.
Proof. reflexivity. Qed.

Lemma create_ok (d : gmap string table) :
  (exec_stmts create_sql (exec_stmts drop_sql d).1).2 = None.
Proof.
  cbn [exec_stmts drop_sql create_sql exec_stmt fst snd].
  repeat (first [ rewrite lookup_delete_eq
                 | rewrite lookup_insert_ne by done
                 | rewrite lookup_delete_ne by done ];
          cbn [exec_stmts exec_stmt fst snd]).
  reflexivity.
Qed.

Lemma recreate_lookup (d : gmap string table) k :
  recreate d !! k = if bool_decide (k ∈ bench_tables) then schema_db !! k else d !! k.
Proof.
  unfold recreate, schema_db.
  cbn [exec_stmts drop_sql create_sql exec_stmt fst snd].
  repeat (first [ rewrite lookup_delete_eq
                 | rewrite lookup_empty
                 | rewrite lookup_insert_ne by done
                 | rewrite lookup_delete_ne by done ];
          cbn [exec_stmts exec_stmt fst snd]).
  case_bool_decide as H.
  - apply in_bench_tables in H as [->|[->|[->|[->| ->]]]];
      repeat first [ rewrite lookup_insert_eq | rewrite lookup_insert_ne by done ];
      reflexivity.
  - unfold bench_tables in H.
    rewrite !lookup_insert_ne, !lookup_delete_ne; [done | ..];
      intros <-; apply H; repeat constructor.
Qed.

Lemma recreate_agree (d : gmap string table) : agree bench_tables (recreate d) schema_db.
Proof. intros k Hk. rewrite recreate_lookup. by rewrite bool_decide_eq_true_2. Qed.

Lemma recreate_only_bench (d : gmap string table) :
  only_bench_tables d = true → recreate d = schema_db.
Proof.
  intros H. unfold only_bench_tables in H. apply bool_decide_eq_true_1 in H.
  apply map_eq. intros k. rewrite recreate_lookup.
  case_bool_decide as Hk; [done|].
  assert (d !! k = None) as ->.
  { apply not_elem_of_dom. intros Hd. apply Hk.
    apply H in Hd. by apply elem_of_list_to_set in Hd. }
  symmetry. apply not_elem_of_dom. intros Hd. apply Hk.
  assert (only_bench_tables schema_db = true) as Hs by (vm_compute; reflexivity).
  unfold only_bench_tables in Hs. apply bool_decide_eq_true_1 in Hs. apply Hs in Hd.
  by apply elem_of_list_to_set in Hd.
Qed.

Lemma bench_stmts ss :
  forallb (fun s => bool_decide (stmt_table s ∈ bench_tables)) ss = true →
  Forall (fun s => stmt_table s ∈ bench_tables) ss.
Proof.
  intros H. apply Forall_forall. intros s Hs.
  rewrite forallb_forall in H. apply list_elem_of_In in Hs.
  apply H in Hs. by apply bool_decide_eq_true_1 in Hs.
Qed.

(** The fixture loads on any database that holds the fresh schema. *)
Lemma fixture_agree (d : gmap string table) :
  agree bench_tables d schema_db →
  let d1 := (exec_stmts insert_customers_sql d).1 in
  let d2 := (exec_stmts insert_categories_sql d1).1 in
  let d3 := (exec_stmts insert_products_sql d2).1 in
  (exec_stmts insert_customers_sql d).2 = None
  ∧ (exec_stmts insert_categories_sql d1).2 = None
  ∧ (exec_stmts insert_products_sql d2).2 = None
  ∧ (exec_stmts insert_orders_sql d3).2 = None
  ∧ agree bench_tables (load_fixture d) fixture_db.
Proof.
  intros H0 d1 d2 d3.
  destruct (exec_stmts_agree bench_tables insert_customers_sql d schema_db)
    as [E1 H1]; [by apply bench_stmts | done |].
  destruct (exec_stmts_agree bench_tables insert_categories_sql d1
              (exec_stmts insert_customers_sql schema_db).1)
    as [E2 H2]; [by apply bench_stmts | done |].
  destruct (exec_stmts_agree bench_tables insert_products_sql d2
              (exec_stmts insert_categories_sql
                 (exec_stmts insert_customers_sql schema_db).1).1)
    as [E3 H3]; [by apply bench_stmts | done |].
  destruct (exec_stmts_agree bench_tables insert_orders_sql d3
              (exec_stmts insert_products_sql
                 (exec_stmts insert_categories_sql
                    (exec_stmts insert_customers_sql schema_db).1).1).1)
    as [E4 H4]; [by apply bench_stmts | done |].
  split_and!; [by rewrite E1 | by rewrite E2 | by rewrite E3 | by rewrite E4 | done].
Qed.
(** ** Paths *)

Lemma append_inj_l (p s1 s2 : string) : p +:+ s1 = p +:+ s2 → s1 = s2.
Proof. induction p as [|a p IH]; cbn; [done|]. intros [= H]. by apply IH. Qed.

Lemma append_cons x (a b : string) : String x a +:+ b = String x (a +:+ b).
Proof. reflexivity. Qed.

Lemma append_assoc (a b c : string) : (a +:+ b) +:+ c = a +:+ (b +:+ c).
Proof. induction a as [|x a IH]; [done|]. by rewrite !append_cons, IH. Qed.

Lemma append_nil_r (a : string) : a +:+ "" = a.
Proof. induction a as [|x a IH]; [done|]. by rewrite append_cons, IH. Qed.

Lemma append_length (a b : string) :
  String.length (a +:+ b) = (String.length a + String.length b)%nat.
Proof.
  induction a as [|x a IH]; [done|].
  rewrite append_cons. cbn [String.length]. by rewrite IH.
Qed.

Lemma append_ne_self (a b : string) : b ≠ ""%string → a +:+ b ≠ a.
Proof.
  intros Hb H. apply (f_equal String.length) in H.
  rewrite append_length in H. destruct b; [done|]. cbn in H. lia.
Qed.

Lemma segments_nonempty p : segments p ≠ [].
Proof.
  destruct p as [|a p]; cbn; [done|].
  destruct (Ascii.eqb a "/"); [done|]. by destruct (segments p).
Qed.

Lemma segments_app_slash a b :
  segments (a +:+ String "/" b) = segments a ++ segments b.
Proof.
  induction a as [|x a IH]; [done|].
  rewrite append_cons. cbn [segments].
  - rewrite IH. destruct (Ascii.eqb x "/"); [done|].
    destruct (segments a) as [|y ys] eqn:E; [by apply segments_nonempty in E|].
    done.
Qed.

Lemma plain_name_inv name :
  plain_name name = true →
  segments name = [name] ∧ String.eqb name "" = false
  ∧ String.eqb name "." = false ∧ String.eqb name ".." = false.
Proof.
  unfold plain_name. rewrite !andb_true_iff, !negb_true_iff.
  intros [[[H1 H2] H3] H4]. by apply bool_decide_eq_true_1 in H1.
Qed.

Lemma norm_segments_snoc allow xs name st :
  plain_name name = true →
  norm_segments allow (xs ++ [name]) st = norm_segments allow xs st ++ [name].
Proof.
  intros (_ & H1 & H2 & H3)%plain_name_inv.
  revert st. induction xs as [|x xs IH]; intros st; cbn [app norm_segments].
  - by rewrite H1, H2, H3.
  - destruct (String.eqb x "" || String.eqb x "."); [apply IH|].
    destruct (String.eqb x "..").
    + destruct st as [|top below]; [apply IH|].
      destruct (String.eqb top ".."); apply IH.
    + apply IH.
Qed.

Lemma join_slash_snoc ys name :
  join_slash (ys ++ [name])
  = match ys with [] => "" | _ => join_slash ys +:+ "/" end +:+ name.
Proof.
  induction ys as [|y ys IH]; [done|].
  destruct ys as [|y' ys].
  - cbn [app join_slash]. by rewrite !append_assoc.
  - change (y +:+ "/" +:+ join_slash ((y' :: ys) ++ [name])
            = (((y +:+ "/" +:+ join_slash (y' :: ys)) +:+ "/") +:+ name)).
    rewrite IH. by rewrite !append_assoc.
Qed.

Lemma last_segments_plain a name :
  plain_name name = true →
  bool_decide (last (segments a ++ [name]) = Some ""%string) = false.
Proof.
  intros (_ & H1 & _)%plain_name_inv. rewrite last_snoc.
  apply bool_decide_eq_false_2. intros [= ->]. done.
Qed.

Lemma append_plain_nonempty x name :
  plain_name name = true → ∃ c s, x +:+ name = String c s.
Proof.
  intros (_ & H1 & _)%plain_name_inv.
  destruct x as [|c x]; [|by eexists _, _].
  destruct name as [|c s]; [done|]. by eexists _, _.
Qed.

Lemma path_normalize_cons a s :
  path_normalize (String a s)
  = match join_slash (norm_segments (negb (Ascii.eqb a "/"))
                                    (segments (String a s)) []) with
    | EmptyString =>
        if Ascii.eqb a "/" then "/"
        else if bool_decide (last (segments (String a s)) = Some ""%string)
             then "./" else "."
    | body =>
        (if Ascii.eqb a "/" then "/" else "") +:+ body
        +:+ (if bool_decide (last (segments (String a s)) = Some ""%string)
             then "/" else "")
    end%string.
Proof. reflexivity. Qed.

(** [path.normalize] of anything followed by a separator and a plain name
    keeps the name as it is. *)
Lemma path_normalize_plain dir name :
  plain_name name = true → dir ≠ ""%string →
  path_normalize (dir +:+ "/" +:+ name) = dir_prefix dir +:+ name.
Proof.
  intros Hn Hd. destruct dir as [|a dir]; [done|].
  pose proof (plain_name_inv _ Hn) as (Hs & _).
  rewrite append_cons, path_normalize_cons, <- append_cons.
  change ("/" +:+ name) with (String "/" name).
  rewrite segments_app_slash, Hs, norm_segments_snoc, join_slash_snoc by done.
  rewrite last_segments_plain by done.
  unfold dir_prefix.
  set (ys := norm_segments _ (segments (String a dir)) []).
  set (x := match ys with [] => ""%string | _ => join_slash ys +:+ "/" end).
  destruct (append_plain_nonempty x name Hn) as (c & s & E).
  rewrite E, <- E. rewrite append_nil_r, append_assoc. subst x. by destruct ys.
Qed.

Lemma path_normalize_name name :
  plain_name name = true → path_normalize name = name.
Proof.
  intros Hn. pose proof (plain_name_inv _ Hn) as (Hs & H1 & H2 & H3).
  destruct name as [|a name]; [done|].
  rewrite path_normalize_cons.
  destruct (Ascii.eqb a "/") eqn:Ea.
  { cbn [segments] in Hs. rewrite Ea in Hs. discriminate Hs. }
  rewrite Hs. cbn [norm_segments negb].
  rewrite H1, H2, H3. cbn [orb rev app join_slash last].
  rewrite bool_decide_eq_false_2 by (intros [= ?]; done).
  change ("" +:+ String a name +:+ "") with (String a name +:+ "").
  by rewrite append_nil_r.
Qed.

(** [path_join] of a directory and a plain file name: a prefix that depends
    on the directory only, then the name. *)
Lemma path_join_plain dir name :
  plain_name name = true → path_join dir name = dir_prefix dir +:+ name.
Proof.
  intros Hn. pose proof (plain_name_inv _ Hn) as (_ & H1 & _).
  unfold path_join. destruct name as [|c name]; [done|].
  destruct dir as [|a dir].
  - by rewrite path_normalize_name.
  - by rewrite path_normalize_plain.
Qed.

Lemma testFile_prefix env :
  testFile env = dir_prefix (tmpdir env) +:+ "benchmark_test.txt".
Proof. by apply path_join_plain. Qed.

Lemma dbPath_prefix env :
  dbPath env = dir_prefix (tmpdir env) +:+ "sql_benchmark.db".
Proof. by apply path_join_plain. Qed.

Lemma journal_prefix env :
  journal_path (dbPath env)
  = dir_prefix (tmpdir env) +:+ "sql_benchmark.db-journal".
Proof. unfold journal_path. by rewrite dbPath_prefix, append_assoc. Qed.

Lemma testFile_ne_dbPath env : testFile env ≠ dbPath env.
Proof.
  rewrite testFile_prefix, dbPath_prefix. intros H.
  apply append_inj_l in H. discriminate H.
Qed.

Lemma testFile_ne_journal env : testFile env ≠ journal_path (dbPath env).
Proof.
  rewrite testFile_prefix, journal_prefix. intros H.
  apply append_inj_l in H. discriminate H.
Qed.

Lemma journal_ne db : journal_path db ≠ db.
Proof. by apply append_ne_self. Qed.

Example path_join_root :
  path_join "/" "benchmark_test.txt" = "/benchmark_test.txt"%string.
Proof. reflexivity. Qed.

Example path_join_normalises :
  path_join "/var//tmp/./x/.." "sql_benchmark.db" = "/var/tmp/sql_benchmark.db"%string
  ∧ path_join "/tmp/" "a.txt" = "/tmp/a.txt"%string
  ∧ path_join "" "a.txt" = "a.txt"%string
  ∧ path_join "../up" "a.txt" = "../up/a.txt"%string
  ∧ path_join "/.." "a.txt" = "/a.txt"%string
  ∧ path_join "rel/dir" ".." = "rel"%string
  ∧ path_join "a" "b/" = "a/b/"%string
  ∧ path_join "." "" = "."%string.
Proof. repeat split; reflexivity. Qed.
(** ** Resources: stepping the library calls *)

Lemma load_conn db r d : load db r = inr d → conn r = Some db.
Proof. unfold load. case_bool_decide; [done | discriminate]. Qed.

Lemma lookup_store_db db d r : fs (store db d r) !! db = Some (SqliteImage d).
Proof.
  unfold store. cbn [fs].
  rewrite lookup_delete_ne by apply journal_ne. apply lookup_insert_eq.
Qed.


Lemma lookup_store_ne db d r p :
  p ≠ db → p ≠ journal_path db → fs (store db d r) !! p = fs r !! p.
Proof.
  intros H1 H2. unfold store. cbn [fs].
  by rewrite lookup_delete_ne, lookup_insert_ne.
Qed.

Lemma load_store db d r : conn r = Some db → load db (store db d r) = inr d.
Proof.
  intros H. unfold load. rewrite lookup_store_db. cbn [store conn].
  by rewrite bool_decide_eq_true_2.
Qed.

(** Two writes in a row leave what the second wrote. *)
Lemma store_store db d1 d2 r : store db d2 (store db d1 r) = store db d2 r.
Proof.
  unfold store. cbn [fs conn]. f_equal. apply map_eq. intros p.
  destruct (decide (p = journal_path db)) as [->|Hj].
  { by rewrite !lookup_delete_eq. }
  rewrite !(lookup_delete_ne _ (journal_path db) p) by done.
  destruct (decide (p = db)) as [->|Hd].
  { by rewrite !lookup_insert_eq. }
  repeat first [ rewrite lookup_insert_ne by done
               | rewrite lookup_delete_ne by done ].
  done.
Qed.

Lemma sqlite_exec_ok db sql r d :
  load db r = inr d → (exec_stmts sql d).2 = None →
  sqlite_exec db sql r = (store db (exec_stmts sql d).1 r, inr tt).
Proof.
  intros Hl He. unfold sqlite_exec. rewrite Hl.
  destruct (exec_stmts sql d) as [d' [e|]]; [discriminate | done].
Qed.

Lemma sqlite_all_ok db q r d x :
  load db r = inr d → eval_query q d = inr x →
  sqlite_all db q r = (r, inr x).
Proof. intros Hl He. unfold sqlite_all. by rewrite Hl, He. Qed.

Lemma load_open p r :
  openable (fs r !! p) → ∃ d0, load p (sqlite_open p r).1 = inr d0.
Proof.
  intros H. unfold load, sqlite_open. cbn [fst conn fs].
  rewrite bool_decide_eq_true_2 by done.
  destruct (fs r !! p) as [[b|d]|] eqn:E; cbn in H.
  - subst b. rewrite E. by eexists.
  - rewrite E. by eexists.
  - rewrite lookup_insert_eq. by eexists.
Qed.

Lemma conn_store db d r : conn (store db d r) = conn r.
Proof. reflexivity. Qed.

Lemma run_sites_step env s ss r r1 :
  inject env s = None →
  site_action env s r = (r1, inr tt) →
  run_sites env (s :: ss) r = run_sites env ss r1.
Proof. intros Hi Ha. cbn [run_sites]. by rewrite Hi, Ha. Qed.

(** One [db.exec] of the run: it succeeds and leaves its database loaded. *)
Lemma exec_step env s ss sql r d :
  inject env s = None →
  (∀ r, site_action env s r = sqlite_exec (dbPath env) sql r) →
  load (dbPath env) r = inr d →
  (exec_stmts sql d).2 = None →
  run_sites env (s :: ss) r
  = run_sites env ss (store (dbPath env) (exec_stmts sql d).1 r)
  ∧ load (dbPath env) (store (dbPath env) (exec_stmts sql d).1 r)
    = inr (exec_stmts sql d).1.
Proof.
  intros Hi Hs Hl He. split.
  - apply run_sites_step; [done|]. rewrite Hs. by apply sqlite_exec_ok.
  - apply load_store. by eapply load_conn.
Qed.

(** One [db.all] of the run on a database that holds the loaded fixture. *)
Lemma all_step env s ss q r d :
  inject env s = None →
  (∀ r, site_action env s r = discard (sqlite_all (dbPath env) q r)) →
  Forall (fun n => n ∈ bench_tables) (query_tables q) →
  eval_query q fixture_db = inr Unevaluated →
  load (dbPath env) r = inr d →
  agree bench_tables d fixture_db →
  run_sites env (s :: ss) r = run_sites env ss r.
Proof.
  intros Hi Hs Hq He Hl Ha.
  apply run_sites_step; [done|]. rewrite Hs.
  rewrite (sqlite_all_ok _ _ _ d Unevaluated); [done | done |].
  by rewrite (eval_query_agree bench_tables q d fixture_db).
Qed.

Lemma bench_names ns :
  forallb (fun n => bool_decide (n ∈ bench_tables)) ns = true →
  Forall (fun n => n ∈ bench_tables) ns.
Proof.
  intros H. apply Forall_forall. intros n Hn.
  rewrite forallb_forall in H. apply list_elem_of_In in Hn.
  apply H in Hn. by apply bool_decide_eq_true_1 in Hn.
Qed.

Ltac exec_run env Hinj Hl E :=
  lazymatch goal with
  | |- context [run_sites env (?s :: ?ss) ?r] =>
      let Hl' := fresh "Hl" in
      let a := eval cbn [site_action] in (site_action env s r) in
      lazymatch a with
      | sqlite_exec _ ?sql _ =>
          destruct (exec_step env s ss sql r _ (Hinj s) (fun _ => eq_refl) Hl E)
            as [-> Hl'];
          clear Hl; rename Hl' into Hl
      end
  end.

Ltac all_run env Hinj Hl Hag :=
  lazymatch goal with
  | |- context [run_sites env (?s :: ?ss) ?r] =>
      let a := eval cbn [site_action] in (site_action env s r) in
      lazymatch a with
      | discard (sqlite_all _ ?q _) =>
          rewrite (all_step env s ss q r _ (Hinj s) (fun _ => eq_refl)
                     (bench_names (query_tables q) eq_refl) eq_refl Hl Hag)
      end
  end.

(** With nothing made to fail and a database file the engine can open
    (absent, empty, or left over from an earlier run), every call of the
    run succeeds. *)
Lemma run_sites_ok env r :
  (∀ s, inject env s = None) →
  openable (fs r !! dbPath env) →
  ∃ r', run_sites env all_sites r = (r', None).
Proof.
  intros Hinj Hop. unfold all_sites.
  pose proof (testFile_ne_dbPath env) as Hne.
  (* the text file *)
  erewrite run_sites_step; [ | done | reflexivity ].
  erewrite run_sites_step; [ | done | ];
    [ | cbn [site_action]; unfold read_file; cbn [fs];
        rewrite lookup_insert_eq; reflexivity ].
  erewrite run_sites_step; [ | done | ];
    [ | cbn [site_action]; unfold unlink_file; cbn [fs];
        rewrite lookup_insert_eq; reflexivity ].
  (* open *)
  erewrite run_sites_step; [ | done | reflexivity ].
  match goal with |- context [run_sites env _ ?r4] =>
    assert (∃ d0, load (dbPath env) r4 = inr d0) as [d0 Hl]
  end.
  { apply (load_open (dbPath env)
             {| fs := delete (testFile env)
                        (<[testFile env := Bytes (utf8_encode testData)]> (fs r));
                conn := conn r |}).
    cbn [fs]. by rewrite lookup_delete_ne, lookup_insert_ne. }
  (* schema *)
  exec_run env Hinj Hl (drop_ok d0).
  exec_run env Hinj Hl (create_ok d0).
  fold (recreate d0) in *.
  (* fixture *)
  destruct (fixture_agree (recreate d0) (recreate_agree d0))
    as (E1 & E2 & E3 & E4 & Hag).
  exec_run env Hinj Hl E1.
  exec_run env Hinj Hl E2.
  exec_run env Hinj Hl E3.
  exec_run env Hinj Hl E4.
  fold (load_fixture (recreate d0)) in *.
  (* queries *)
  do 4 all_run env Hinj Hl Hag.
  (* close, delete *)
  erewrite run_sites_step; [ | done | ];
    [ | cbn [site_action]; unfold sqlite_close;
        rewrite bool_decide_eq_true_2 by reflexivity; reflexivity ].
  erewrite run_sites_step; [ | done | ];
    [ | cbn [site_action]; unfold unlink_file; cbn [fs];
        rewrite lookup_store_db; reflexivity ].
  by eexists.
Qed.
(** ** The harness *)

Lemma run_sites_garbage env r b bs :
  (∀ s, inject env s = None) →
  fs r !! dbPath env = Some (Bytes (b :: bs)) →
  ∃ r', run_sites env all_sites r = (r', Some (SDrop, SQLITE_NOTADB)).
Proof.
  intros Hinj Hf. unfold all_sites.
  pose proof (testFile_ne_dbPath env) as Hne.
  erewrite run_sites_step; [ | done | reflexivity ].
  erewrite run_sites_step; [ | done | ];
    [ | cbn [site_action]; unfold read_file; cbn [fs];
        rewrite lookup_insert_eq; reflexivity ].
  erewrite run_sites_step; [ | done | ];
    [ | cbn [site_action]; unfold unlink_file; cbn [fs];
        rewrite lookup_insert_eq; reflexivity ].
  erewrite run_sites_step; [ | done | reflexivity ].
  cbn [run_sites site_action]. rewrite Hinj.
  unfold sqlite_exec, load. cbn [fs conn].
  rewrite bool_decide_eq_true_2 by done.
  do 2 (rewrite lookup_delete_ne, lookup_insert_ne, Hf by done).
  by eexists.
Qed.

Lemma records_length env b : length (records env b) = 10%nat.
Proof. reflexivity. Qed.

Lemma records_names env b :
  map name (records env b) = timed_labels ++ [total_label].
Proof. reflexivity. Qed.


(** Every record's end reading is taken after its start reading. *)
Lemma records_readings env b t :
  t ∈ records env b →
  ∃ i j : nat, (i < j)%nat ∧ t_start t = clock env i ∧ t_end t = clock env j.
Proof.
  unfold records. intros H.
  repeat (apply elem_of_cons in H as [->|H];
          [ eexists _, _; split; [ | split; reflexivity ]; lia | ]).
  by apply elem_of_nil in H.
Qed.

Lemma parse_bigint_to_string z : parse_bigint (bigint_to_string z) = Some z.
Proof.
  unfold parse_bigint, bigint_to_string.
  rewrite NilZero.isi.
  - cbn. by rewrite DecimalZ.of_to.
  - destruct z; cbn; [ discriminate | | discriminate ].
    intros [= H]. by apply DecimalPos.Unsigned.to_uint_nonnil in H.
  - destruct z; cbn; [ discriminate | discriminate | ].
    intros [= H]. by apply DecimalPos.Unsigned.to_uint_nonnil in H.
Qed.

Lemma bench_simple_ok env w w1 :
  bench_simple env w = Ok tt w1 →
  now w1 = (6 + now w)%nat
  ∧ stdout w1 = stdout w ++ map render (take 3 (records env (now w))).
Proof.
  destruct w as [n out err evs r].
  unfold bench_simple, fs_writeFileSync, fs_readFileSync, fs_unlinkSync, call, bind,
    hrtime_bigint, console_log, sqrt_loop, log, set_res.
  cbn [now stdout stderr events res].
  destruct (inject env SWrite); [ discriminate | ].
  destruct (write_file _ _ _) as [? [?|?]]; cbn [now stdout stderr events res];
    [ discriminate | ].
  destruct (inject env SRead); [ discriminate | ].
  destruct (read_file _ _ _) as [? [?|?]]; cbn [now stdout stderr events res];
    [ discriminate | ].
  destruct (inject env SUnlinkTxt); [ discriminate | ].
  destruct (unlink_file _ _) as [? [?|[]]]; cbn [now stdout stderr events res];
    [ discriminate | ].
  intros [= <-]. cbn [now stdout]. split; [ reflexivity | ].
  rewrite <- ?app_assoc. reflexivity.
Qed.

Lemma bench_split env w :
  bench env w = match bench_simple env w with
                | Ok _ w1 => bench_sql env w1
                | Throw e w' => Throw e w'
                end.
Proof. reflexivity. Qed.

Lemma bench_throw_inv env w e w' :
  bench env w = Throw e w' →
  ∃ s, run_sites env all_sites (res w) = (res w', Some (s, e))
       ∧ last (events w') = Some (Raise s e)
       ∧ stdout w' = stdout w ++ map render (take (lines_before s) (records env (now w))).
Proof.
  rewrite bench_run. unfold outcome.
  destruct (run_sites env all_sites (res w)) as [r [[s e0]|]]; [ | discriminate ].
  intros [= <- <-]. exists s.
  split; [ reflexivity | ]. split; [ | reflexivity ].
  change (last (events w
                ++ map (call_event env) (take (S (site_index s)) all_sites)
                ++ [Raise s e0]) = Some (Raise s e0)).
  by rewrite app_assoc, last_snoc.
Qed.

Lemma bench_ok_inv env w w' :
  bench env w = Ok tt w' → run_sites env all_sites (res w) = (res w', None).
Proof.
  rewrite bench_run. unfold outcome.
  destruct (run_sites env all_sites (res w)) as [r [[s e0]|]]; [ discriminate | ].
  by intros [= <-].
Qed.

Lemma bench_ok_of_openable env w :
  (∀ s, inject env s = None) →
  openable (fs (res w) !! dbPath env) →
  ∃ w', bench env w = Ok tt w'.
Proof.
  intros Hinj Hop. destruct (run_sites_ok env (res w) Hinj Hop) as [r' Hr].
  rewrite bench_run. unfold outcome. rewrite Hr. by eexists.
Qed.
(** ** Statements about the harness *)

Lemma quiet_run :
  ∃ r', bench quiet_env fresh_world
        = Ok tt {| now := 20; stdout := map render (records quiet_env 0);
                   stderr := []; events := map (call_event quiet_env) all_sites;
                   res := r' |}.
Proof.
  destruct (run_sites_ok quiet_env (res fresh_world)) as [r' Hr]; [ done | done | ].
  exists r'. rewrite bench_run. unfold outcome. by rewrite Hr.
Qed.

Lemma garbage_run :
  ∃ r', bench quiet_env garbage_world
        = Throw SQLITE_NOTADB
            {| now := 8;
               stdout := map render (take 3 (records quiet_env 0));
               stderr := [];
               events := map (call_event quiet_env) (take 5 all_sites)
                         ++ [Raise SDrop SQLITE_NOTADB];
               res := r' |}.
Proof.
  destruct (run_sites_garbage quiet_env (res garbage_world) 0x42 [])
    as [r' Hr]; [ done | done | ].
  exists r'. rewrite bench_run. unfold outcome. by rewrite Hr.
Qed.

Lemma call_event_not_raise env s e ss : Raise s e ∉ map (call_event env) ss.
Proof.
  intros H. apply list_elem_of_fmap in H as (s' & H & _). discriminate H.
Qed.



(** C2, as stated, fails: the total does not start at the first reading of
    the run.  With a clock that advances 1000 ns per reading the claim asks
    for a total of 19000 ns; the program prints 13000 ns. *)
Lemma total_span_counterexample :
  ¬ (∀ env w w', bench env w = Ok tt w' →
       render {| name := total_label;
                 t_start := clock env (now w);
                 t_end := clock env (19 + now w) |} ∈ stdout w').
Proof.
  intros H. destruct quiet_run as [r' Hr].
  specialize (H _ _ _ Hr). cbn [stdout now fresh_world world_with] in H.
  vm_compute in H.
  repeat (apply elem_of_cons in H as [H|H]; [ discriminate H | ]).
  by apply elem_of_nil in H.
Qed.

(** C2, amended: after all operations complete the harness prints exactly
    one total line, the last line; it spans from the reading taken at the
    start of the SQL benchmark (the first reading after [bench_simple], before
    the database is opened) to the last reading of the run (after the
    database file is deleted). *)
Theorem total_span env w w' :
  bench env w = Ok tt w' →
  ∃ w1 timed_recs,
    bench_simple env w = Ok tt w1
    ∧ bench_sql env w1 = Ok tt w'
    ∧ stdout w' = stdout w ++ map render timed_recs
                   ++ [render {| name := total_label;
                                 t_start := clock env (now w1);
                                 t_end := clock env (Nat.pred (now w')) |}]
    ∧ Forall (fun t => name t ≠ total_label) timed_recs
    ∧ now w1 = (6 + now w)%nat
    ∧ now w' = (20 + now w)%nat.
Proof.
  intros H. pose proof H as Hb. rewrite bench_split in Hb.
  destruct (bench_simple env w) as [[] w1|] eqn:Hs; [ | discriminate ].
  destruct (bench_simple_ok env w w1 Hs) as [Hn _].
  rewrite bench_run in H. unfold outcome in H.
  destruct (run_sites env all_sites (res w)) as [r [[s e]|]]; [ discriminate | ].
  injection H as <-. cbn [now stdout].
  exists w1, (take 9 (records env (now w))).
  split_and!; try done.
  - rewrite Hn. reflexivity.
  - unfold records, total_label. cbn [take].
    repeat (apply Forall_cons; split; [ discriminate | ]). apply Forall_nil_2.
Qed.

(** C3: when a call of the run raises, [bench] itself ends with that error
    (nothing in the harness catches it), no call after the failing one is
    made, and the only lines printed are those of operations that were
    complete before it: no line is printed for the failing operation or
    for any later one, and standard error is left alone. *)
Theorem failure_propagates env w s e :
  events w = [] →
  Raise s e ∈ events (world_of (bench env w)) →
  ∃ w', bench env w = Throw e w'
    ∧ events w' = map (call_event env) (take (S (site_index s)) all_sites)
                   ++ [Raise s e]
    ∧ stdout w' = stdout w ++ map render (take (lines_before s) (records env (now w)))
    ∧ stderr w' = stderr w
    ∧ ∀ s' l, (site_index s <= site_index s')%nat → l ∈ site_lines s' →
              l ∉ map name (take (lines_before s) (records env (now w))).
Proof.
  intros Hev Hin. rewrite bench_run in *. unfold outcome in *.
  destruct (run_sites env all_sites (res w)) as [r [[s0 e0]|]];
    cbn [world_of events] in Hin; rewrite Hev in Hin; cbn [app] in Hin.
  - apply elem_of_app in Hin as [Hin|Hin];
      [ by apply call_event_not_raise in Hin | ].
    apply list_elem_of_singleton in Hin as [= <- <-].
    eexists. split; [ reflexivity | ]. cbn [events stdout stderr].
    rewrite Hev. split_and!; try reflexivity.
    intros s' l Hle Hl. rewrite <- firstn_map, records_names.
    clear -Hle Hl.
    destruct s; cbn [lines_before take timed_labels total_label app];
      destruct s'; cbn in Hle; try lia; cbn in Hl;
      repeat (apply elem_of_cons in Hl as [->|Hl]);
      try (by apply elem_of_nil in Hl);
      intros Hx;
      repeat (apply elem_of_cons in Hx as [Hx|Hx]; [ discriminate Hx | ]);
      by apply elem_of_nil in Hx.
  - by apply call_event_not_raise in Hin.
Qed.

(** C4: a run in which every operation succeeds prints ten lines: one per
    timed operation, in program order, then the total; each line is
    "<label> time: <integer> nanoseconds", the integer in decimal. *)
Theorem success_output env w w' :
  bench env w = Ok tt w' →
  stdout w' = stdout w ++ map render (records env (now w))
  ∧ map name (records env (now w)) = timed_labels ++ [total_label]
  ∧ length timed_labels = 9%nat
  ∧ ∀ t, render t = name t +:+ " time: " +:+ bigint_to_string (t_end t - t_start t)
                    +:+ " nanoseconds"
         ∧ parse_bigint (bigint_to_string (t_end t - t_start t))
           = Some (t_end t - t_start t).
Proof.
  intros H. rewrite bench_run in H. unfold outcome in H.
  destruct (run_sites env all_sites (res w)) as [r [[s e]|]]; [ discriminate | ].
  injection H as <-. cbn [stdout].
  split_and!; try reflexivity.
  intros t. split; [ reflexivity | apply parse_bigint_to_string ].
Qed.

(** C8: with a monotonic clock, every line printed by a run (complete or
    cut short) reports a record whose end reading is not earlier than its
    start reading, so the elapsed time printed is not negative. *)
Theorem elapsed_nonnegative env w :
  monotonic (clock env) →
  ∃ recs,
    stdout (world_of (bench env w)) = stdout w ++ map render recs
    ∧ Forall (fun t => t_start t <= t_end t ∧ 0 <= t_end t - t_start t) recs
    ∧ Forall (fun t => ∃ i j : nat, (i < j)%nat ∧ t_start t = clock env i
                                   ∧ t_end t = clock env j) recs.
Proof.
  intros Hmono.
  assert (∀ k, ∃ recs, map render (take k (records env (now w))) = map render recs
    ∧ Forall (fun t => t_start t <= t_end t ∧ 0 <= t_end t - t_start t) recs
    ∧ Forall (fun t => ∃ i j : nat, (i < j)%nat ∧ t_start t = clock env i
                                   ∧ t_end t = clock env j) recs) as Hk.
  { intros k. exists (take k (records env (now w))). split; [ reflexivity | ].
    assert (Forall (fun t => ∃ i j : nat, (i < j)%nat ∧ t_start t = clock env i
                                   ∧ t_end t = clock env j)
              (take k (records env (now w)))) as Hr.
    { apply Forall_forall. intros t Ht. apply (records_readings env (now w)).
      by apply (subseteq_take k). }
    split; [ | exact Hr ].
    eapply Forall_impl; [ exact Hr | ].
    intros t (i & j & Hij & -> & ->).
    assert (clock env i <= clock env j) by (apply Hmono; lia). lia. }
  rewrite bench_run. unfold outcome.
  destruct (run_sites env all_sites (res w)) as [r [[s e]|]]; cbn [world_of stdout].
  - destruct (Hk (lines_before s)) as (recs & -> & H1 & H2). by exists recs.
  - destruct (Hk 10%nat) as (recs & E & H1 & H2).
    exists recs. by rewrite <- E.
Qed.
(** ** Files *)

Lemma js_repeat_unit u c : js_repeat [u] c = List.repeat u (N.to_nat c).
Proof.
  unfold js_repeat. induction (N.to_nat c) as [|n IH]; [ reflexivity | ].
  cbn [List.repeat concat app]. by rewrite IH.
Qed.

Lemma utf8_encode_ascii s :
  Forall (fun u => 0 <= u < 0x80) s → utf8_encode s = s.
Proof.
  induction 1 as [|u s Hu _ IH]; [ reflexivity | ].
  cbn [utf8_encode]. unfold is_high_surrogate, is_low_surrogate, utf8_of_code_point.
  replace (0xD800 <=? u) with false by lia.
  replace (0xDC00 <=? u) with false by lia.
  replace (u <? 0x80) with true by lia.
  cbn [andb app]. by rewrite IH.
Qed.

Lemma utf8_decode_ascii s :
  Forall (fun u => 0 <= u < 0x80) s → utf8_decode s = s.
Proof.
  unfold utf8_decode.
  induction 1 as [|u s Hu _ IH]; [ reflexivity | ].
  cbn [utf8_decode_from]. unfold dec_step, dec_lead. cbn [dec_needed dec_init].
  replace (u <? 0x80) with true by lia.
  cbn [app]. by rewrite IH.
Qed.

Lemma testData_repeat : testData = List.repeat 120 (N.to_nat (1024 * 1024)).
Proof. unfold testData. apply js_repeat_unit. Qed.

Lemma testData_ascii : Forall (fun u => 0 <= u < 0x80) testData.
Proof.
  rewrite testData_repeat. apply Forall_forall. intros u Hu.
  apply list_elem_of_In, repeat_spec in Hu. lia.
Qed.

Lemma testData_length : Z.of_nat (length testData) = 1048576.
Proof. rewrite testData_repeat, repeat_length, N_nat_Z. reflexivity. Qed.

(** C6: writing the 1 MiB buffer of 'x' to the temporary file and reading
    the file back gives the original buffer; the file holds 1,048,576
    octets, one per character, each the character's code. *)
Theorem file_round_trip env w :
  inject env SWrite = None →
  inject env SRead = None →
  ∃ w',
    bind (fs_writeFileSync env SWrite (testFile env) testData)
         (fun _ => fs_readFileSync env SRead (testFile env)) w
    = Ok testData w'
    ∧ fs (res w') !! testFile env = Some (Bytes (utf8_encode testData))
    ∧ utf8_encode testData = List.repeat 120 (N.to_nat (1024 * 1024))
    ∧ Z.of_nat (length (utf8_encode testData)) = 1048576
    ∧ Z.of_nat (length testData) = 1048576.
Proof.
  intros Hw Hr.
  unfold bind, fs_writeFileSync, fs_readFileSync, call.
  rewrite Hw. unfold write_file. cbn [log set_res res now stdout stderr events].
  rewrite Hr. unfold read_file. cbn [fs res].
  rewrite lookup_insert_eq. cbn [file_bytes].
  rewrite (utf8_encode_ascii _ testData_ascii), (utf8_decode_ascii _ testData_ascii).
  eexists. split; [ reflexivity | ]. cbn [res set_res log fs].
  rewrite lookup_insert_eq.
  split_and!; [ reflexivity | apply testData_repeat | apply testData_length
              | apply testData_length ].
Qed.

Lemma unlink_file_ok p r r1 x :
  unlink_file p r = (r1, inr x) → fs r1 = delete p (fs r).
Proof.
  unfold unlink_file. destruct (fs r !! p); [ | discriminate ].
  by intros [= <- _].
Qed.

Lemma sqlite_exec_frame db sql r q :
  q ≠ db → q ≠ journal_path db →
  fs (sqlite_exec db sql r).1 !! q = fs r !! q.
Proof.
  intros Hq Hj. unfold sqlite_exec. destruct (load db r); [ done | ].
  destruct (exec_stmts sql _) as [d' [e|]]; cbn [fst];
    by apply lookup_store_ne.
Qed.

Lemma sqlite_exec_partial_frame db sql n r q :
  q ≠ db → q ≠ journal_path db →
  fs (sqlite_exec_partial db sql n r) !! q = fs r !! q.
Proof.
  intros Hq Hj. unfold sqlite_exec_partial.
  destruct (take _ sql); [ done | ].
  destruct (load db r); [ done | ]. by apply lookup_store_ne.
Qed.

Lemma write_file_partial_frame p data n r q :
  q ≠ p → fs (write_file_partial p data n r) !! q = fs r !! q.
Proof.
  intros Hq. destruct n; [ done | ]. cbn [write_file_partial fs].
  by rewrite lookup_insert_ne.
Qed.

Lemma sqlite_all_frame db qy r : fs (discard (sqlite_all db qy r)).1 = fs r.
Proof.
  unfold sqlite_all. destruct (load db r); [ done | ].
  by destruct (eval_query qy _).
Qed.

Ltac site_files_ne Hq :=
  repeat match goal with
  | Hq' : ?q ∉ ?l |- _ =>
      lazymatch Hq' with Hq => idtac end;
      match l with
      | context [?x :: _] =>
          lazymatch goal with
          | _ : q ≠ x |- _ => fail
          | _ => assert (q ≠ x)
                   by (intros ->; apply Hq, list_elem_of_In; cbn; tauto)
          end
      end
  end.

(** A call changes no file but the one it is made on and, when it is a
    batch of statements, the database's journal. *)
Lemma site_action_frame env s r q :
  q ∉ site_files env s → fs (site_action env s r).1 !! q = fs r !! q.
Proof.
  intros Hq.
  destruct s; cbn [site_action site_files] in *; site_files_ne Hq;
    first [ by apply sqlite_exec_frame | by rewrite sqlite_all_frame | idtac ].
  - unfold write_file. cbn [fst fs]. by rewrite lookup_insert_ne.
  - unfold read_file. by destruct (fs r !! _).
  - unfold unlink_file. destruct (fs r !! testFile env); [ | done ].
    cbn [fst fs]. by rewrite lookup_delete_ne.
  - unfold sqlite_open. cbn [discard fst fs].
    destruct (fs r !! dbPath env); [ done | ]. by rewrite lookup_insert_ne.
  - unfold sqlite_close. by case_bool_decide.
  - unfold unlink_file. destruct (fs r !! dbPath env); [ | done ].
    cbn [fst fs]. by rewrite lookup_delete_ne.
Qed.

(** So does a call the environment fails. *)
Lemma site_partial_frame env s r q :
  q ∉ site_files env s → fs (site_partial env s r) !! q = fs r !! q.
Proof.
  intros Hq.
  destruct s; cbn [site_partial site_files] in *; site_files_ne Hq;
    first [ by apply sqlite_exec_partial_frame
          | by apply write_file_partial_frame | done ].
Qed.

Lemma run_sites_frame env ss r q :
  Forall (fun s => q ∉ site_files env s) ss →
  fs (run_sites env ss r).1 !! q = fs r !! q.
Proof.
  intros Hss. revert r. induction Hss as [|s ss Hs _ IH]; intros r; [ done | ].
  cbn [run_sites]. destruct (inject env s).
  { cbn [fst]. by apply site_partial_frame. }
  pose proof (site_action_frame env s r q Hs) as Hf.
  destruct (site_action env s r) as [r1 [e|x]]; cbn [fst] in *; [ done | ].
  by rewrite IH.
Qed.

Lemma run_sites_cons_ok env s ss r r' :
  run_sites env (s :: ss) r = (r', None) →
  ∃ r1, site_action env s r = (r1, inr tt) ∧ run_sites env ss r1 = (r', None).
Proof.
  cbn [run_sites]. destruct (inject env s); [ discriminate | ].
  destruct (site_action env s r) as [r1 [e|[]]]; [ discriminate | ].
  intros H. by exists r1.
Qed.







(** ** Schema and fixture *)

Lemma db_exec_ok env s db sql w d :
  inject env s = None →
  load db (res w) = inr d →
  (exec_stmts sql d).2 = None →
  db_exec env s db sql w
  = Ok tt (set_res (store db (exec_stmts sql d).1 (res w)) (log (Call s db) w)).
Proof.
  intros Hi Hl He. unfold db_exec, call. rewrite Hi. cbn [log res].
  by rewrite (sqlite_exec_ok db sql (res w) d Hl He).
Qed.

Lemma createSchema_ok env db w d0 :
  inject env SDrop = None →
  inject env SCreate = None →
  load db (res w) = inr d0 →
  ∃ w', createSchema env db w = Ok tt w'
        ∧ load db (res w') = inr (recreate d0)
        ∧ res w' = store db (recreate d0) (res w).
Proof.
  intros H1 H2 Hl. unfold createSchema, bind.
  rewrite (db_exec_ok env SDrop db drop_sql w d0 H1 Hl (drop_ok d0)).
  assert (conn (res w) = Some db) as Hc by (by eapply load_conn).
  rewrite (db_exec_ok env SCreate db create_sql _ (exec_stmts drop_sql d0).1 H2).
  - eexists. split; [ reflexivity | ]. cbn [res set_res log]. split.
    + by apply load_store.
    + apply store_store.
  - cbn [res set_res log]. by apply load_store.
  - apply create_ok.
Qed.

Lemma insertTestData_ok env db w d :
  inject env SInsCustomers = None →
  inject env SInsCategories = None →
  inject env SInsProducts = None →
  inject env SInsOrders = None →
  load db (res w) = inr d →
  agree bench_tables d schema_db →
  ∃ w', insertTestData env db w = Ok tt w'
        ∧ load db (res w') = inr (load_fixture d).
Proof.
  intros H1 H2 H3 H4 Hl Ha.
  destruct (fixture_agree d Ha) as (E1 & E2 & E3 & E4 & _).
  assert (conn (res w) = Some db) as Hc by (by eapply load_conn).
  unfold insertTestData, bind.
  rewrite (db_exec_ok env SInsCustomers db _ w d H1 Hl E1).
  erewrite (db_exec_ok env SInsCategories db _ _ _ H2); [ | by apply load_store | exact E2 ].
  erewrite (db_exec_ok env SInsProducts db _ _ _ H3); [ | by apply load_store | exact E3 ].
  erewrite (db_exec_ok env SInsOrders db _ _ _ H4); [ | by apply load_store | exact E4 ].
  eexists. split; [ reflexivity | ]. by apply load_store.
Qed.

Lemma schema_db_tables t :
  t ∈ bench_tables → ∃ tb, schema_db !! t = Some tb ∧ tbl_rows tb = [].
Proof.
  intros H. apply in_bench_tables in H as [->|[->|[->|[->| ->]]]];
    eexists; (split; [ vm_compute; reflexivity | reflexivity ]).
Qed.

Lemma recreate_empty : recreate ∅ = schema_db.
Proof. vm_compute. reflexivity. Qed.

Lemma recreate_idem (d : gmap string table) : recreate (recreate d) = recreate d.
Proof.
  apply map_eq. intros k. rewrite !recreate_lookup. by case_bool_decide.
Qed.

Lemma count_agree t n (d : gmap string table) :
  t ∈ bench_tables → agree bench_tables d fixture_db →
  eval_query (SelectCount t) fixture_db = inr (Rows [[VInt n]]) →
  eval_query (SelectCount t) d = inr (Rows [[VInt n]]).
Proof.
  intros Ht Ha <-. apply (eval_query_agree bench_tables); [ | done ].
  cbn [query_tables]. by apply Forall_cons.
Qed.

(** C7: on a fresh (empty) database the schema step succeeds; afterwards
    the database holds exactly the five tables, and selecting from any of
    them returns no row. *)
Theorem schema_on_fresh_database env w db :
  inject env SDrop = None →
  inject env SCreate = None →
  load db (res w) = inr ∅ →
  ∃ w', createSchema env db w = Ok tt w'
    ∧ load db (res w') = inr schema_db
    ∧ dom schema_db = list_to_set bench_tables
    ∧ ∀ t, t ∈ bench_tables →
           sqlite_all db (SelectAll t) (res w') = (res w', inr (Rows [])).
Proof.
  intros H1 H2 Hl.
  destruct (createSchema_ok env db w ∅ H1 H2 Hl) as (w' & Hw & Hl' & _).
  rewrite recreate_empty in Hl'.
  exists w'. split_and!; [ done | done | | ].
  - apply set_eq. intros k. rewrite elem_of_dom, elem_of_list_to_set. split.
    + intros Hk. destruct (decide (k ∈ bench_tables)) as [|Hn]; [ done | ].
      rewrite <- recreate_empty, recreate_lookup in Hk.
      rewrite bool_decide_eq_false_2 in Hk by done.
      rewrite lookup_empty in Hk. by destruct Hk.
    + intros Hk. destruct (schema_db_tables k Hk) as (tb & -> & _). by eexists.
  - intros t Ht. destruct (schema_db_tables t Ht) as (tb & Htb & Hrows).
    apply sqlite_all_ok with (d := schema_db); [ done | ].
    cbn [eval_query]. by rewrite Htb, Hrows.
Qed.

(** C5: after the schema step and the fixture load, counting the rows of
    each table gives 3 customers, 6 categories, 4 products, 4 orders and
    5 order items -- whatever the database held before the schema step. *)
Theorem fixture_row_counts env w db d0 :
  inject env SDrop = None →
  inject env SCreate = None →
  inject env SInsCustomers = None →
  inject env SInsCategories = None →
  inject env SInsProducts = None →
  inject env SInsOrders = None →
  load db (res w) = inr d0 →
  ∃ w1 w2,
    createSchema env db w = Ok tt w1
    ∧ insertTestData env db w1 = Ok tt w2
    ∧ sqlite_all db (SelectCount "customers") (res w2)
      = (res w2, inr (Rows [[VInt 3]]))
    ∧ sqlite_all db (SelectCount "categories") (res w2)
      = (res w2, inr (Rows [[VInt 6]]))
    ∧ sqlite_all db (SelectCount "products") (res w2)
      = (res w2, inr (Rows [[VInt 4]]))
    ∧ sqlite_all db (SelectCount "orders") (res w2)
      = (res w2, inr (Rows [[VInt 4]]))
    ∧ sqlite_all db (SelectCount "order_items") (res w2)
      = (res w2, inr (Rows [[VInt 5]])).
Proof.
  intros H1 H2 H3 H4 H5 H6 Hl.
  destruct (createSchema_ok env db w d0 H1 H2 Hl) as (w1 & Hw1 & Hl1 & _).
  destruct (insertTestData_ok env db w1 (recreate d0) H3 H4 H5 H6 Hl1
              (recreate_agree d0)) as (w2 & Hw2 & Hl2).
  destruct (fixture_agree (recreate d0) (recreate_agree d0)) as (_ & _ & _ & _ & Ha).
  exists w1, w2. split_and!; [ done | done | .. ];
    (apply sqlite_all_ok with (d := load_fixture (recreate d0)); [ done | ];
     apply count_agree;
       [ apply list_elem_of_In; cbn; tauto | done | vm_compute; reflexivity ]).
Qed.

(** C10: whatever tables the database holds when the schema step starts,
    the step succeeds and leaves the five tables as on a fresh database,
    existing and empty; if it held nothing but (some of) these tables, the
    whole database is the one a fresh run gets.  The tables are dropped in
    the reverse of the order they are created in.  A second schema step
    right after the first succeeds and leaves the same file store. *)
Theorem schema_setup_idempotent env w db d0 :
  inject env SDrop = None →
  inject env SCreate = None →
  load db (res w) = inr d0 →
  ∃ w1 w2,
    createSchema env db w = Ok tt w1
    ∧ load db (res w1) = inr (recreate d0)
    ∧ (∀ t, t ∈ bench_tables →
            recreate d0 !! t = schema_db !! t
            ∧ ∃ tb, recreate d0 !! t = Some tb ∧ tbl_rows tb = [])
    ∧ (only_bench_tables d0 = true → recreate d0 = schema_db)
    ∧ map stmt_table drop_sql = rev (map stmt_table create_sql)
    ∧ createSchema env db w1 = Ok tt w2
    ∧ load db (res w2) = load db (res w1)
    ∧ fs (res w2) = fs (res w1).
Proof.
  intros H1 H2 Hl.
  destruct (createSchema_ok env db w d0 H1 H2 Hl) as (w1 & Hw1 & Hl1 & Hf1).
  destruct (createSchema_ok env db w1 (recreate d0) H1 H2 Hl1) as (w2 & Hw2 & Hl2 & Hf2).
  rewrite recreate_idem in Hl2, Hf2.
  exists w1, w2. split_and!; try done.
  - intros t Ht. rewrite (recreate_agree d0 t Ht). split; [ done | ].
    by apply schema_db_tables.
  - apply recreate_only_bench.
  - by rewrite Hl1, Hl2.
  - by rewrite Hf2, Hf1, store_store.
Qed.
(** ** The statements at sample inputs *)

Lemma total_span_witness :
  ∃ w' w1,
    bench quiet_env fresh_world = Ok tt w'
    ∧ bench_simple quiet_env fresh_world = Ok tt w1
    ∧ now w1 = 6%nat ∧ now w' = 20%nat
    ∧ last (stdout w')
      = Some (render {| name := total_label;
                        t_start := clock quiet_env (now w1);
                        t_end := clock quiet_env (Nat.pred (now w')) |}).
Proof.
  destruct quiet_run as [r' Hr].
  destruct (total_span quiet_env fresh_world _ Hr)
    as (w1 & recs & Hs & _ & Hout & _ & Hn1 & Hn').
  eexists _, w1. split; [ exact Hr | ]. split; [ exact Hs | ].
  split; [ exact Hn1 | ]. split; [ exact Hn' | ].
  rewrite Hout. cbn [stdout fresh_world world_with app].
  apply last_snoc.
Defined.

Lemma failure_propagates_witness :
  events garbage_world = []
  ∧ ∃ w', bench quiet_env garbage_world = Throw SQLITE_NOTADB w'
          ∧ stdout w' = map render (take 3 (records quiet_env 0))
          ∧ stderr w' = [].
Proof.
  split; [ reflexivity | ].
  destruct (failure_propagates quiet_env garbage_world SDrop SQLITE_NOTADB)
    as (w' & Hb & _ & Hout & Herr & _).
  - reflexivity.
  - destruct garbage_run as [r' Hr]. rewrite Hr. cbn [world_of events].
    apply elem_of_app. right. apply list_elem_of_singleton. reflexivity.
  - exists w'. split; [ exact Hb | ]. split; [ exact Hout | exact Herr ].
Defined.

Lemma success_output_witness :
  ∃ w', bench quiet_env fresh_world = Ok tt w'
        ∧ stdout w' = map render (records quiet_env 0)
        ∧ map name (records quiet_env 0) = timed_labels ++ [total_label].
Proof.
  destruct quiet_run as [r' Hr].
  destruct (success_output quiet_env fresh_world _ Hr) as (Hout & Hn & _).
  eexists. split; [ exact Hr | ]. split; [ exact Hout | exact Hn ].
Defined.

Lemma quiet_clock_monotonic : monotonic (clock quiet_env).
Proof. intros i j H. cbn. lia. Qed.

Lemma elapsed_nonnegative_witness :
  monotonic (clock quiet_env)
  ∧ ∃ recs,
      stdout (world_of (bench quiet_env fresh_world)) = map render recs
      ∧ Forall (fun t => t_start t <= t_end t ∧ 0 <= t_end t - t_start t) recs.
Proof.
  split; [ exact quiet_clock_monotonic | ].
  destruct (elapsed_nonnegative quiet_env fresh_world quiet_clock_monotonic)
    as (recs & Hout & Hle & _).
  exists recs. split; [ exact Hout | exact Hle ].
Defined.

Lemma file_round_trip_witness :
  ∃ w',
    bind (fs_writeFileSync quiet_env SWrite (testFile quiet_env) testData)
         (fun _ => fs_readFileSync quiet_env SRead (testFile quiet_env)) fresh_world
    = Ok testData w'
    ∧ Z.of_nat (length testData) = 1048576.
Proof.
  destruct (file_round_trip quiet_env fresh_world eq_refl eq_refl)
    as (w' & Hrun & _ & _ & _ & Hlen).
  exists w'. split; [ exact Hrun | exact Hlen ].
Defined.


Lemma opened_world_load :
  load "/tmp/sql_benchmark.db" (res opened_world) = inr ∅.
Proof. vm_compute. reflexivity. Qed.

Lemma leftover_world_load :
  load "/tmp/sql_benchmark.db" (res leftover_world) = inr fixture_db.
Proof. unfold load. cbn [res leftover_world world_with conn fs].
  rewrite bool_decide_eq_true_2 by reflexivity. by rewrite lookup_singleton_eq.
Qed.

Lemma schema_on_fresh_database_witness :
  ∃ w', createSchema quiet_env "/tmp/sql_benchmark.db" opened_world = Ok tt w'
        ∧ load "/tmp/sql_benchmark.db" (res w') = inr schema_db
        ∧ sqlite_all "/tmp/sql_benchmark.db" (SelectAll "orders") (res w')
          = (res w', inr (Rows [])).
Proof.
  destruct (schema_on_fresh_database quiet_env opened_world "/tmp/sql_benchmark.db"
              eq_refl eq_refl opened_world_load) as (w' & Hw & Hl & _ & Hq).
  exists w'. split; [ exact Hw | ]. split; [ exact Hl | ].
  apply Hq. apply list_elem_of_In. cbn. tauto.
Defined.

Lemma fixture_row_counts_witness :
  ∃ w1 w2,
    createSchema quiet_env "/tmp/sql_benchmark.db" leftover_world = Ok tt w1
    ∧ insertTestData quiet_env "/tmp/sql_benchmark.db" w1 = Ok tt w2
    ∧ sqlite_all "/tmp/sql_benchmark.db" (SelectCount "order_items") (res w2)
      = (res w2, inr (Rows [[VInt 5]])).
Proof.
  destruct (fixture_row_counts quiet_env leftover_world "/tmp/sql_benchmark.db"
              fixture_db eq_refl eq_refl eq_refl eq_refl eq_refl eq_refl
              leftover_world_load)
    as (w1 & w2 & H1 & H2 & _ & _ & _ & _ & H5).
  exists w1, w2. split; [ exact H1 | ]. split; [ exact H2 | exact H5 ].
Defined.

Lemma fixture_only_bench : only_bench_tables fixture_db = true.
Proof. vm_compute. reflexivity. Qed.

Lemma schema_setup_idempotent_witness :
  ∃ w1 w2,
    createSchema quiet_env "/tmp/sql_benchmark.db" leftover_world = Ok tt w1
    ∧ load "/tmp/sql_benchmark.db" (res w1) = inr schema_db
    ∧ createSchema quiet_env "/tmp/sql_benchmark.db" w1 = Ok tt w2
    ∧ fs (res w2) = fs (res w1).
Proof.
  destruct (schema_setup_idempotent quiet_env leftover_world "/tmp/sql_benchmark.db"
              fixture_db eq_refl eq_refl leftover_world_load)
    as (w1 & w2 & H1 & Hl & _ & Hs & _ & H2 & _ & Hf).
  exists w1, w2. split; [ exact H1 | ].
  split; [ rewrite Hl; f_equal; exact (Hs fixture_only_bench) | ].
  split; [ exact H2 | exact Hf ].
Defined.
(** ** Further properties of the run *)

Lemma run_sites_app env ss1 ss2 r :
  run_sites env (ss1 ++ ss2) r
  = match run_sites env ss1 r with
    | (r1, None) => run_sites env ss2 r1
    | (r1, Some x) => (r1, Some x)
    end.
Proof.
  revert r. induction ss1 as [|s ss1 IH]; intros r; [ reflexivity | ].
  cbn [app run_sites]. destruct (inject env s); [ reflexivity | ].
  destruct (site_action env s r) as [r1 [e|x]]; [ reflexivity | apply IH ].
Qed.

Lemma run_sites_fail_in env ss r r' s e :
  run_sites env ss r = (r', Some (s, e)) → s ∈ ss.
Proof.
  revert r. induction ss as [|s0 ss IH]; intros r; cbn [run_sites]; [ discriminate | ].
  destruct (inject env s0).
  { intros [= _ <- _]. apply list_elem_of_here. }
  destruct (site_action env s0 r) as [r1 [e0|x]].
  - intros [= _ <- _]. apply list_elem_of_here.
  - intros H. apply list_elem_of_further. by eapply IH.
Qed.

(** A property of the resources that every call at the sites [ss] keeps,
    whether the call succeeds, fails, or is failed by the environment,
    holds after the run over [ss]. *)
Lemma run_sites_invariant env (P : Resources → Prop) ss r :
  Forall (fun s => ∀ r0, P r0 → P (site_action env s r0).1
                                ∧ P (site_partial env s r0)) ss →
  P r → P (run_sites env ss r).1.
Proof.
  intros Hss. revert r. induction Hss as [|s ss Hs _ IH]; intros r Hr; [ done | ].
  cbn [run_sites]. destruct (Hs r Hr) as [Ha Hp].
  destruct (inject env s); [ done | ].
  destruct (site_action env s r) as [r1 [e|x]]; [ done | ].
  by apply IH.
Qed.

Lemma dbPath_tmpdir env1 env2 : tmpdir env1 = tmpdir env2 → dbPath env1 = dbPath env2.
Proof. unfold dbPath, os_tmpdir. by intros ->. Qed.

(** X1: with nothing made to fail, [bench_simple] succeeds from any store:
    a file already at the text file's path is overwritten.  It takes six
    clock readings, prints its three lines, leaves the connection alone and
    leaves the store without the text file, every other file as it was. *)
Theorem bench_simple_effect env w :
  inject env SWrite = None →
  inject env SRead = None →
  inject env SUnlinkTxt = None →
  ∃ w', bench_simple env w = Ok tt w'
    ∧ fs (res w') = delete (testFile env) (fs (res w))
    ∧ conn (res w') = conn (res w)
    ∧ now w' = (6 + now w)%nat
    ∧ stdout w' = stdout w ++ map render (take 3 (records env (now w)))
    ∧ stderr w' = stderr w.
Proof.
  intros H1 H2 H3. destruct w as [n out err evs r].
  unfold bench_simple, fs_writeFileSync, fs_readFileSync, fs_unlinkSync, call, bind,
    hrtime_bigint, console_log, sqrt_loop, log, set_res.
  cbn [now stdout stderr events res].
  rewrite H1. unfold write_file. cbn [now stdout stderr events res].
  rewrite H2. unfold read_file. cbn [fs]. rewrite lookup_insert_eq.
  cbn [now stdout stderr events res].
  rewrite H3. unfold unlink_file. cbn [fs]. rewrite lookup_insert_eq.
  eexists. split; [ reflexivity | ]. cbn [now stdout stderr events res fs conn].
  split_and!; try reflexivity.
  - apply delete_insert_eq.
  - rewrite <- ?app_assoc. reflexivity.
Qed.

(** X2: on a temp directory without a database file, or with an empty
    file at its path, and with nothing made to fail, the whole run
    succeeds, whatever else the directory holds -- a text file or a journal
    left behind included.  It takes twenty clock readings, makes the
    sixteen calls in program order and writes nothing to standard error. *)
Theorem bench_succeeds_fresh env w :
  (∀ s, inject env s = None) →
  fs (res w) !! dbPath env = None ∨ fs (res w) !! dbPath env = Some (Bytes []) →
  ∃ w', bench env w = Ok tt w'
        ∧ now w' = (20 + now w)%nat
        ∧ events w' = events w ++ map (call_event env) all_sites
        ∧ length all_sites = 16%nat
        ∧ stderr w' = stderr w.
Proof.
  intros Hinj Hf.
  assert (openable (fs (res w) !! dbPath env)) as Hop
    by (by destruct Hf as [-> | ->]).
  destruct (run_sites_ok env (res w) Hinj Hop) as [r' Hr].
  rewrite bench_run. unfold outcome. rewrite Hr.
  eexists. split; [ reflexivity | ]. by cbn [now events stderr].
Qed.

Lemma sqlite_exec_openable db sql r :
  openable (fs r !! db) → openable (fs (sqlite_exec db sql r).1 !! db).
Proof.
  intros H. unfold sqlite_exec. destruct (load _ r); [ done | ].
  destruct (exec_stmts sql _) as [d' [e|]]; cbn [fst];
    by rewrite lookup_store_db.
Qed.

Lemma sqlite_exec_partial_openable db sql n r :
  openable (fs r !! db) → openable (fs (sqlite_exec_partial db sql n r) !! db).
Proof.
  intros H. unfold sqlite_exec_partial. destruct (take _ sql); [ done | ].
  destruct (load _ r); [ done | ]. by rewrite lookup_store_db.
Qed.

Lemma site_action_openable env s r :
  openable (fs r !! dbPath env) → openable (fs (site_action env s r).1 !! dbPath env).
Proof.
  intros H. pose proof (testFile_ne_dbPath env) as Hne.
  destruct s; cbn [site_action];
    first [ by apply sqlite_exec_openable | by rewrite sqlite_all_frame | idtac ].
  - unfold write_file. cbn [fst fs]. by rewrite lookup_insert_ne.
  - unfold read_file. by destruct (fs r !! testFile env).
  - unfold unlink_file. destruct (fs r !! testFile env); [ | done ].
    cbn [fst fs]. by rewrite lookup_delete_ne.
  - unfold sqlite_open. cbn [discard fst fs].
    destruct (fs r !! dbPath env) eqn:E; [ by rewrite E | ].
    by rewrite lookup_insert_eq.
  - unfold sqlite_close. by case_bool_decide.
  - unfold unlink_file. destruct (fs r !! dbPath env) eqn:E;
      cbn [fst fs]; [ | by rewrite E ].
    by rewrite lookup_delete_eq.
Qed.

Lemma site_partial_openable env s r :
  openable (fs r !! dbPath env) → openable (fs (site_partial env s r) !! dbPath env).
Proof.
  intros H. pose proof (testFile_ne_dbPath env) as Hne.
  destruct s; cbn [site_partial];
    first [ by apply sqlite_exec_partial_openable | done | idtac ].
  rewrite write_file_partial_frame; [ done | by apply not_eq_sym ].
Qed.

(** X3: the program can be run again.  Start on a temp directory without
    a database file (or with an empty file at its path) and let a run end
    in any way: complete, failed at any call, the failed call having got
    as far as the environment says.  A later run in which nothing is made
    to fail then succeeds on what the first run left behind. *)
Theorem rerun_after_fresh_run env1 env2 w :
  tmpdir env1 = tmpdir env2 →
  (∀ s, inject env2 s = None) →
  fs (res w) !! dbPath env1 = None ∨ fs (res w) !! dbPath env1 = Some (Bytes []) →
  ∃ w2, bench env2 (world_of (bench env1 w)) = Ok tt w2.
Proof.
  intros Ht Hinj Hf.
  assert (openable (fs (res w) !! dbPath env1)) as Hop
    by (by destruct Hf as [-> | ->]).
  apply (bench_ok_of_openable env2 _ Hinj).
  rewrite <- (dbPath_tmpdir env1 env2 Ht).
  assert (res (world_of (bench env1 w)) = (run_sites env1 all_sites (res w)).1) as ->.
  { rewrite bench_run. unfold outcome.
    by destruct (run_sites env1 all_sites (res w)) as [r [[s e]|]]. }
  apply (run_sites_invariant env1 (fun r => openable (fs r !! dbPath env1)));
    [ | done ].
  apply Forall_forall. intros s _ r0 H0. split.
  - by apply site_action_openable.
  - by apply site_partial_openable.
Qed.

Lemma unlink_file_conn p r : conn (unlink_file p r).1 = conn r.
Proof. unfold unlink_file. by destruct (fs r !! p). Qed.

(** X4: after a run in which every operation succeeds no connection is
    left open. *)
Theorem connection_closed_after_success env w w' :
  bench env w = Ok tt w' → conn (res w') = None.
Proof.
  intros H. apply bench_ok_inv in H. unfold all_sites in H.
  do 14 (apply run_sites_cons_ok in H as (? & _ & H)).
  apply run_sites_cons_ok in H as (r15 & Hc & H).
  apply run_sites_cons_ok in H as (r16 & Hu & H).
  injection H as <-.
  cbn [site_action] in Hc, Hu.
  pose proof (unlink_file_conn (dbPath env) r15) as Hconn.
  rewrite Hu in Hconn. cbn [fst] in Hconn. rewrite Hconn.
  unfold sqlite_close in Hc. case_bool_decide; [ | discriminate ].
  by injection Hc as <-.
Qed.

(** X5: no cleanup on the error path of [bench_simple].  When the read
    or the removal of the text file fails, the run ends with the 1 MiB
    text file still in the temp directory. *)
Theorem text_file_left_on_failure env w e w' s :
  bench env w = Throw e w' →
  last (events w') = Some (Raise s e) →
  s = SRead ∨ s = SUnlinkTxt →
  fs (res w') !! testFile env = Some (Bytes (utf8_encode testData)).
Proof.
  intros H Hlast Hs.
  apply bench_throw_inv in H as (s0 & Hr & Hlast0 & _).
  rewrite Hlast in Hlast0. injection Hlast0 as <-.
  change all_sites with ([SWrite; SRead; SUnlinkTxt] ++ drop 3 all_sites) in Hr.
  rewrite run_sites_app in Hr.
  assert (∀ r1 x, run_sites env [SWrite; SRead; SUnlinkTxt] (res w) = (r1, Some x) →
            x.1 ≠ SWrite →
            fs r1 !! testFile env = Some (Bytes (utf8_encode testData))) as Hpre.
  { intros r1 x. cbn [run_sites site_action].
    destruct (inject env SWrite).
    { intros Hx. apply (f_equal snd) in Hx. cbn [snd] in Hx.
      injection Hx as <-. by intros []. }
    unfold write_file.
    destruct (inject env SRead).
    { intros Hx _. apply (f_equal fst) in Hx. cbn [fst] in Hx. subst r1.
      cbn [fs]. apply lookup_insert_eq. }
    unfold read_file. cbn [fs]. rewrite lookup_insert_eq. cbn [discard].
    destruct (inject env SUnlinkTxt).
    { intros Hx _. apply (f_equal fst) in Hx. cbn [fst] in Hx. subst r1.
      cbn [fs]. apply lookup_insert_eq. }
    unfold unlink_file. cbn [fs]. rewrite lookup_insert_eq.
    intros Hx. apply (f_equal snd) in Hx. discriminate Hx. }
  destruct (run_sites env [SWrite; SRead; SUnlinkTxt] (res w)) as [r3 [x|]] eqn:H3.
  - injection Hr as <- ->. apply (Hpre _ _ eq_refl). cbn [fst]. by destruct Hs as [-> | ->].
  - apply run_sites_fail_in in Hr. unfold all_sites in Hr. cbn [drop] in Hr.
    destruct Hs as [-> | ->];
      repeat (apply elem_of_cons in Hr as [Hr|Hr]; [ discriminate Hr | ]);
      by apply elem_of_nil in Hr.
Qed.

Lemma store_sql_phase env d r :
  sql_phase env r → sql_phase env (store (dbPath env) d r).
Proof.
  intros (Hf & Hc & Ht). unfold sql_phase.
  rewrite lookup_store_db, lookup_store_ne
    by (apply testFile_ne_dbPath || apply testFile_ne_journal).
  eauto.
Qed.

Lemma sql_site_keeps env s r :
  s ∈ sql_sites → sql_phase env r →
  sql_phase env (site_action env s r).1 ∧ sql_phase env (site_partial env s r).
Proof.
  intros Hs Hp.
  assert (∀ sql, sql_phase env (sqlite_exec (dbPath env) sql r).1) as Hexec.
  { intros sql. unfold sqlite_exec. destruct (load _ r); [ done | ].
    destruct (exec_stmts sql _) as [d' [e|]]; cbn [fst];
      by apply store_sql_phase. }
  assert (∀ sql n, sql_phase env (sqlite_exec_partial (dbPath env) sql n r)) as Hpart.
  { intros sql n. unfold sqlite_exec_partial. destruct (take _ sql); [ done | ].
    destruct (load _ r); [ done | ]. by apply store_sql_phase. }
  assert (∀ q, sql_phase env (discard (sqlite_all (dbPath env) q r)).1) as Hall.
  { intros q. unfold sqlite_all. destruct (load _ r); [ done | ].
    by destruct (eval_query q _). }
  unfold sql_sites in Hs.
  repeat (apply elem_of_cons in Hs as [->|Hs];
          [ cbn [site_action site_partial]; split;
            first [ apply Hexec | apply Hall | apply Hpart | exact Hp ] | ]).
  by apply elem_of_nil in Hs.
Qed.

(** X6: no cleanup on the error path of [bench_sql].  When a call after
    [open] fails, the run ends with the database file still in the temp
    directory (the text file is gone), and, unless it was the final
    removal of the file that failed, with the connection still open. *)
Theorem database_left_on_failure env w e w' s :
  bench env w = Throw e w' →
  last (events w') = Some (Raise s e) →
  s ∈ sql_sites ++ [SClose; SUnlinkDb] →
  is_Some (fs (res w') !! dbPath env)
  ∧ fs (res w') !! testFile env = None
  ∧ (s ≠ SUnlinkDb → conn (res w') = Some (dbPath env)).
Proof.
  intros H Hlast Hs. pose proof (testFile_ne_dbPath env) as Hne.
  apply bench_throw_inv in H as (s0 & Hr & Hlast0 & _).
  rewrite Hlast in Hlast0. injection Hlast0 as <-.
  change all_sites
    with ([SWrite; SRead; SUnlinkTxt; SOpen] ++ sql_sites ++ [SClose; SUnlinkDb]) in Hr.
  rewrite run_sites_app in Hr.
  destruct (run_sites env [SWrite; SRead; SUnlinkTxt; SOpen] (res w))
    as [r4 [[s1 e1]|]] eqn:H4.
  { injection Hr as _ <- _. apply run_sites_fail_in in H4.
    exfalso. unfold sql_sites in Hs. cbn [app] in Hs.
    repeat (apply elem_of_cons in H4 as [->|H4];
            [ repeat (apply elem_of_cons in Hs as [Hs|Hs]; [ discriminate Hs | ]);
              by apply elem_of_nil in Hs | ]).
    by apply elem_of_nil in H4. }
  assert (sql_phase env r4) as Hp.
  { apply run_sites_cons_ok in H4 as (r1 & _ & H4).
    apply run_sites_cons_ok in H4 as (r2 & _ & H4).
    apply run_sites_cons_ok in H4 as (r3 & Hu & H4).
    apply run_sites_cons_ok in H4 as (r4' & Ho & H4).
    injection H4 as ->. cbn [site_action] in Hu, Ho.
    apply unlink_file_ok in Hu.
    unfold sqlite_open in Ho. cbn [discard] in Ho. injection Ho as <-.
    unfold sql_phase. cbn [fs conn]. split_and!; [ | done | ].
    - destruct (fs r3 !! dbPath env) eqn:E; [ by rewrite E | ].
      by rewrite lookup_insert_eq.
    - destruct (fs r3 !! dbPath env);
        rewrite ?lookup_insert_ne by done; rewrite Hu; apply lookup_delete_eq. }
  rewrite run_sites_app in Hr.
  assert (sql_phase env (run_sites env sql_sites r4).1) as Hp'.
  { apply (run_sites_invariant env (sql_phase env)); [ | done ].
    apply Forall_forall. intros s1 Hs1 r0 H0. by apply sql_site_keeps. }
  destruct (run_sites env sql_sites r4) as [r14 [[s1 e1]|]]; cbn [fst] in Hp'.
  { injection Hr as <- _ _. destruct Hp' as (? & ? & ?). done. }
  destruct Hp' as (Hf & Hc & Ht).
  cbn [run_sites site_action] in Hr.
  destruct (inject env SClose).
  { by injection Hr as <- _ _. }
  unfold sqlite_close in Hr. rewrite bool_decide_eq_true_2 in Hr by done.
  destruct (inject env SUnlinkDb).
  { by injection Hr as <- <- _. }
  unfold unlink_file in Hr. cbn [fs] in Hr.
  destruct (fs r14 !! dbPath env); [ discriminate Hr | by destruct Hf ].
Qed.

(** X7: the parts never exceed the whole.  With a monotonic clock, in a
    run in which every operation succeeds the six SQL timings printed
    (schema, fixture, four queries) add up to no more than the total
    printed after them. *)
Theorem total_covers_sql_timings env w w' :
  monotonic (clock env) →
  bench env w = Ok tt w' →
  ∃ simple sql total,
    stdout w' = stdout w ++ map render (simple ++ sql ++ [total])
    ∧ length simple = 3%nat
    ∧ length sql = 6%nat
    ∧ name total = total_label
    ∧ sum_durations sql <= duration total.
Proof.
  intros Hmono H. rewrite bench_run in H. unfold outcome in H.
  destruct (run_sites env all_sites (res w)) as [r [[s e]|]]; [ discriminate | ].
  injection H as <-. cbn [stdout].
  exists (take 3 (records env (now w))), (take 6 (drop 3 (records env (now w)))),
    {| name := total_label;
       t_start := clock env (6 + now w); t_end := clock env (19 + now w) |}.
  split_and!; try reflexivity.
  unfold sum_durations, duration, records.
  cbn [take drop map foldr t_start t_end].
  assert (∀ i, clock env (i + now w) <= clock env (S i + now w)) as Hstep
    by (intros i; apply Hmono; lia).
  pose proof (Hstep 6%nat). pose proof (Hstep 8%nat). pose proof (Hstep 10%nat).
  pose proof (Hstep 12%nat). pose proof (Hstep 14%nat). pose proof (Hstep 16%nat).
  pose proof (Hstep 18%nat). lia.
Qed.

(** ** Further properties of the schema and fixture steps *)

Lemma db_exec_fail env s db sql w d e :
  inject env s = None →
  load db (res w) = inr d →
  (exec_stmts sql d).2 = Some e →
  db_exec env s db sql w
  = Throw e (log (Raise s e)
               (set_res (store db (exec_stmts sql d).1 (res w)) (log (Call s db) w))).
Proof.
  intros Hi Hl He. unfold db_exec, call. rewrite Hi. cbn [log res].
  unfold sqlite_exec. rewrite Hl.
  destruct (exec_stmts sql d) as [d' [e'|]]; cbn [snd fst] in *; [ | discriminate ].
  by injection He as ->.
Qed.

Lemma exec_single_fail s (d : gmap string table) e :
  (exec_stmts [s] d).2 = Some e → (exec_stmts [s] d).1 = d.
Proof. cbn [exec_stmts]. by destruct (exec_stmt s d). Qed.

Lemma dropped_lookup (d : gmap string table) k :
  (exec_stmts drop_sql d).1 !! k
  = if bool_decide (k ∈ bench_tables) then None else d !! k.
Proof.
  cbn [exec_stmts drop_sql exec_stmt fst].
  case_bool_decide as H.
  - apply in_bench_tables in H as [->|[->|[->|[->| ->]]]];
      repeat first [ rewrite lookup_delete_eq | rewrite lookup_delete_ne by done ];
      reflexivity.
  - unfold bench_tables in H.
    rewrite !lookup_delete_ne; [ done | .. ]; intros <-; apply H; repeat constructor.
Qed.

(** X8: the fixture cannot be loaded twice.  On a database that already
    holds the fixture, [insertTestData] fails at its first batch with a
    UNIQUE violation on the customers' e-mail column; the failing
    statement changes nothing, and no later batch is sent. *)
Theorem fixture_load_twice_fails env w db d :
  inject env SInsCustomers = None →
  load db (res w) = inr d →
  agree bench_tables d fixture_db →
  ∃ w', insertTestData env db w
        = Throw (SQLITE_CONSTRAINT "UNIQUE constraint failed: customers.email") w'
    ∧ load db (res w') = inr d
    ∧ events w' = events w
                  ++ [ Call SInsCustomers db;
                       Raise SInsCustomers
                         (SQLITE_CONSTRAINT "UNIQUE constraint failed: customers.email") ].
Proof.
  intros Hi Hl Ha.
  destruct (exec_stmts_agree bench_tables insert_customers_sql d fixture_db)
    as [He _]; [ by apply bench_stmts | done | ].
  assert ((exec_stmts insert_customers_sql fixture_db).2
          = Some (SQLITE_CONSTRAINT "UNIQUE constraint failed: customers.email")) as Hf
    by (vm_compute; reflexivity).
  rewrite Hf in He.
  unfold insertTestData, bind.
  rewrite (db_exec_fail env SInsCustomers db _ w d _ Hi Hl He).
  eexists. split; [ reflexivity | ]. cbn [res set_res log events].
  rewrite (exec_single_fail _ d _ He : (exec_stmts insert_customers_sql d).1 = d).
  split.
  - apply load_store. by eapply load_conn.
  - by rewrite <- app_assoc.
Qed.

(** X9: the fixture needs the schema.  On a database without a customers
    table, [insertTestData] fails at its first batch with
    "no such table: customers" and leaves the database as it was. *)
Theorem fixture_load_without_schema_fails env w db d :
  inject env SInsCustomers = None →
  load db (res w) = inr d →
  d !! "customers"%string = None →
  ∃ w', insertTestData env db w
        = Throw (SQLITE_ERROR "no such table: customers") w'
    ∧ load db (res w') = inr d
    ∧ events w' = events w
                  ++ [ Call SInsCustomers db;
                       Raise SInsCustomers (SQLITE_ERROR "no such table: customers") ].
Proof.
  intros Hi Hl Hn.
  assert ((exec_stmts insert_customers_sql d).2
          = Some (SQLITE_ERROR "no such table: customers")) as He.
  { unfold insert_customers_sql. cbn [exec_stmts exec_stmt]. by rewrite Hn. }
  unfold insertTestData, bind.
  rewrite (db_exec_fail env SInsCustomers db _ w d _ Hi Hl He).
  eexists. split; [ reflexivity | ]. cbn [res set_res log events].
  rewrite (exec_single_fail _ d _ He : (exec_stmts insert_customers_sql d).1 = d).
  split.
  - apply load_store. by eapply load_conn.
  - by rewrite <- app_assoc.
Qed.

(** The database after the DROP batch and the first [n] statements of
    the CREATE batch. *)
Lemma created_lookup (d : gmap string table) n k :
  (exec_stmts (take n create_sql) (exec_stmts drop_sql d).1).1 !! k
  = if bool_decide (k ∈ created_tables n) then schema_db !! k
    else if bool_decide (k ∈ bench_tables) then None else d !! k.
Proof.
  assert (∀ m, (exec_stmts (take m create_sql) (exec_stmts drop_sql d).1).2 = None
               ∧ ∀ j, j ∉ bench_tables →
                   (exec_stmts (take m create_sql) (exec_stmts drop_sql d).1).1 !! j
                   = d !! j) as Hout.
  { intros m. destruct m as [|[|[|[|[|m]]]]];
      cbn [take exec_stmts drop_sql create_sql exec_stmt fst snd];
      rewrite ?firstn_nil;
      repeat (first [ rewrite lookup_delete_eq
                     | rewrite lookup_insert_ne by done
                     | rewrite lookup_delete_ne by done ];
              cbn [exec_stmts exec_stmt fst snd]);
      (split; [ reflexivity | ]); intros j Hj; unfold bench_tables in Hj;
      rewrite ?lookup_insert_ne, ?lookup_delete_ne; try done;
      intros <-; apply Hj; repeat constructor. }
  destruct (decide (k ∈ bench_tables)) as [Hk|Hk].
  - rewrite (bool_decide_eq_true_2 (k ∈ bench_tables)) by done.
    apply in_bench_tables in Hk.
    unfold created_tables, schema_db.
    destruct n as [|[|[|[|[|n]]]]];
      cbn [take map stmt_table exec_stmts drop_sql create_sql exec_stmt fst snd];
      rewrite ?firstn_nil;
      repeat (first [ rewrite lookup_delete_eq
                     | rewrite lookup_empty
                     | rewrite lookup_insert_ne by done
                     | rewrite lookup_delete_ne by done ];
              cbn [exec_stmts exec_stmt fst snd]);
      destruct Hk as [->|[->|[->|[->| ->]]]];
      repeat first [ rewrite lookup_insert_eq
                   | rewrite lookup_delete_eq
                   | rewrite lookup_insert_ne by done
                   | rewrite lookup_delete_ne by done ];
      vm_compute bool_decide; reflexivity.
  - rewrite (bool_decide_eq_false_2 (k ∈ bench_tables)) by done.
    rewrite bool_decide_eq_false_2.
    + by apply Hout.
    + intros Hc. apply Hk. unfold created_tables in Hc.
      apply (subseteq_take n) in Hc. apply list_elem_of_In in Hc.
      apply list_elem_of_In. exact Hc.
Qed.

Lemma created_tables_bench n t : t ∈ created_tables n → t ∈ bench_tables.
Proof. intros H. by apply (subseteq_take n) in H. Qed.

Lemma sqlite_exec_partial_load db sql n r d :
  load db r = inr d →
  load db (sqlite_exec_partial db sql n r)
  = inr (exec_stmts (take (Nat.min n (Nat.pred (length sql))) sql) d).1.
Proof.
  intros Hl. unfold sqlite_exec_partial.
  destruct (take _ sql) as [|s ss] eqn:E; [ done | ].
  rewrite Hl. apply load_store. by eapply load_conn.
Qed.

(** X10: the schema step is not atomic.  If the DROP batch goes through
    and the CREATE batch then fails at one of its statements, the step
    fails with the old tables and their rows gone, the tables whose CREATE
    came before the failing statement in place and empty, the later ones
    -- the last one, order_items, at least -- missing, and every other
    table of the database as it was. *)
Theorem schema_step_partial env w db d0 e :
  inject env SDrop = None →
  inject env SCreate = Some e →
  load db (res w) = inr d0 →
  ∃ w' d', createSchema env db w = Throw e w'
    ∧ load db (res w') = inr d'
    ∧ (∀ t, t ∈ created_tables (create_progress env) →
            d' !! t = schema_db !! t
            ∧ ∃ tb, d' !! t = Some tb ∧ tbl_rows tb = [])
    ∧ (∀ t, t ∈ bench_tables → t ∉ created_tables (create_progress env) →
            d' !! t = None)
    ∧ d' !! "order_items"%string = None
    ∧ (∀ t, t ∉ bench_tables → d' !! t = d0 !! t).
Proof.
  intros H1 H2 Hl. unfold createSchema, bind.
  rewrite (db_exec_ok env SDrop db drop_sql w d0 H1 Hl (drop_ok d0)).
  unfold db_exec, call. rewrite H2.
  eexists _, (exec_stmts (take (create_progress env) create_sql)
                         (exec_stmts drop_sql d0).1).1.
  split; [ reflexivity | ].
  cbn [res set_res log]. split_and!.
  - apply sqlite_exec_partial_load, load_store. by eapply load_conn.
  - intros t Ht. rewrite created_lookup, bool_decide_eq_true_2 by done.
    split; [ done | ]. by apply schema_db_tables, (created_tables_bench _ _ Ht).
  - intros t Ht Hn. rewrite created_lookup.
    by rewrite bool_decide_eq_false_2, bool_decide_eq_true_2.
  - rewrite created_lookup. unfold create_progress.
    destruct (progress env SCreate) as [|[|[|[|[|n]]]]]; reflexivity.
  - intros t Ht. rewrite created_lookup.
    rewrite bool_decide_eq_false_2, bool_decide_eq_false_2; [ done | done | ].
    intros Hc. by apply Ht, (created_tables_bench _ _ Hc).
Qed.

(** X11: the queries name nothing the schema lacks.  Right after the
    schema step, before any fixture is loaded and whatever the database
    held before, the engine accepts each of the four benchmark queries;
    on a database without the schema it refuses each of them. *)
Theorem queries_need_only_schema env w db d0 :
  inject env SDrop = None →
  inject env SCreate = None →
  load db (res w) = inr d0 →
  (∃ w1, createSchema env db w = Ok tt w1
         ∧ ∀ q, q ∈ bench_queries →
                sqlite_all db q (res w1) = (res w1, inr Unevaluated))
  ∧ (d0 = ∅ → ∀ q, q ∈ bench_queries →
                ∃ e, sqlite_all db q (res w) = (res w, inl e)).
Proof.
  intros H1 H2 Hl. split.
  - destruct (createSchema_ok env db w d0 H1 H2 Hl) as (w1 & Hw1 & Hl1 & _).
    exists w1. split; [ done | ]. intros q Hq.
    apply sqlite_all_ok with (d := recreate d0); [ done | ].
    unfold bench_queries in Hq.
    repeat (apply elem_of_cons in Hq as [->|Hq];
            [ rewrite (eval_query_agree bench_tables _ (recreate d0) schema_db);
              [ vm_compute; reflexivity
              | by apply bench_names
              | apply recreate_agree ] | ]).
    by apply elem_of_nil in Hq.
  - intros -> q Hq. unfold sqlite_all. rewrite Hl.
    unfold bench_queries in Hq.
    repeat (apply elem_of_cons in Hq as [->|Hq];
            [ eexists; vm_compute eval_query; reflexivity | ]).
    by apply elem_of_nil in Hq.
Qed.

Lemma fk_holds_agree (d f : gmap string table) t fk :
  fk_ref_table fk ∈ bench_tables → agree bench_tables d f →
  fk_holds d t fk = fk_holds f t fk.
Proof. intros H Ha. unfold fk_holds. by rewrite (Ha _ H). Qed.

Lemma references_hold_agree (d f : gmap string table) :
  agree bench_tables d f →
  (∀ n t, n ∈ bench_tables → f !! n = Some t →
          Forall (fun fk => fk_ref_table fk ∈ bench_tables) (tbl_foreign_keys t)) →
  references_hold d = references_hold f.
Proof.
  intros Ha Hc. unfold references_hold.
  assert (∀ l, (∀ n, n ∈ l → n ∈ bench_tables) →
    forallb (fun n => match d !! n with
                      | Some t => forallb (fk_holds d t) (tbl_foreign_keys t)
                      | None => false
                      end) l
    = forallb (fun n => match f !! n with
                        | Some t => forallb (fk_holds f t) (tbl_foreign_keys t)
                        | None => false
                        end) l) as Hl.
  { induction l as [|n l IH]; intros Hin; [ reflexivity | ].
    cbn [forallb]. rewrite IH by (intros; apply Hin; by apply list_elem_of_further).
    f_equal. rewrite (Ha n) by (apply Hin, list_elem_of_here).
    destruct (f !! n) as [t|] eqn:E; [ | reflexivity ].
    specialize (Hc n t (Hin n (list_elem_of_here _ _)) E).
    induction Hc as [|fk fks Hfk _ IHf]; [ reflexivity | ].
    cbn [forallb]. by rewrite IHf, (fk_holds_agree d f t fk Hfk Ha). }
  by apply Hl.
Qed.

Lemma fixture_fks_closed n t :
  n ∈ bench_tables → fixture_db !! n = Some t →
  Forall (fun fk => fk_ref_table fk ∈ bench_tables) (tbl_foreign_keys t).
Proof.
  intros Hn E.
  apply in_bench_tables in Hn as [->|[->|[->|[->| ->]]]];
    vm_compute in E; injection E as <-; cbn [tbl_foreign_keys];
    repeat (apply Forall_cons; split; [ apply list_elem_of_In; cbn; tauto | ]);
    apply Forall_nil_2.
Qed.

(** X12: the fixture is referentially consistent.  After the schema step
    and the fixture load, from whatever database, every foreign-key value
    in the five tables is NULL or the key of a row of the table it refers
    to -- although the engine, as the program uses it, does not check. *)
Theorem fixture_references_hold env w db d0 :
  inject env SDrop = None →
  inject env SCreate = None →
  inject env SInsCustomers = None →
  inject env SInsCategories = None →
  inject env SInsProducts = None →
  inject env SInsOrders = None →
  load db (res w) = inr d0 →
  ∃ w1 w2 d2,
    createSchema env db w = Ok tt w1
    ∧ insertTestData env db w1 = Ok tt w2
    ∧ load db (res w2) = inr d2
    ∧ references_hold d2 = true.
Proof.
  intros H1 H2 H3 H4 H5 H6 Hl.
  destruct (createSchema_ok env db w d0 H1 H2 Hl) as (w1 & Hw1 & Hl1 & _).
  destruct (insertTestData_ok env db w1 (recreate d0) H3 H4 H5 H6 Hl1
              (recreate_agree d0)) as (w2 & Hw2 & Hl2).
  destruct (fixture_agree (recreate d0) (recreate_agree d0)) as (_ & _ & _ & _ & Ha).
  exists w1, w2, (load_fixture (recreate d0)). split_and!; try done.
  rewrite (references_hold_agree _ fixture_db Ha fixture_fks_closed).
  vm_compute. reflexivity.
Qed.

(** ** [bench_sql] on its own *)




Lemma sql_records_of_records env b :
  drop 3 (records env b) = sql_records env (6 + b).
Proof. reflexivity. Qed.




Lemma write_file_conn p d r : conn (write_file p d r).1 = conn r.
Proof. reflexivity. Qed.

(** X14: a failure in [bench_simple] never reaches the database.  When
    the run fails at one of the three calls on the text file, the file at
    the database path is what it was before the run and no connection has
    been opened or closed. *)
Theorem simple_failure_spares_database env w e w' s :
  bench env w = Throw e w' →
  last (events w') = Some (Raise s e) →
  s ∈ [SWrite; SRead; SUnlinkTxt] →
  fs (res w') !! dbPath env = fs (res w) !! dbPath env
  ∧ conn (res w') = conn (res w).
Proof.
  intros H Hlast Hs. pose proof (testFile_ne_dbPath env) as Hne.
  apply bench_throw_inv in H as (s0 & Hr & Hlast0 & _).
  rewrite Hlast in Hlast0. injection Hlast0 as <-.
  change all_sites with ([SWrite; SRead; SUnlinkTxt] ++ sql_run_sites) in Hr.
  rewrite run_sites_app in Hr.
  pose proof (run_sites_frame env [SWrite; SRead; SUnlinkTxt] (res w) (dbPath env))
    as Hframe.
  pose proof (run_sites_invariant env (fun r => conn r = conn (res w))
                [SWrite; SRead; SUnlinkTxt] (res w)) as Hconn.
  destruct (run_sites env [SWrite; SRead; SUnlinkTxt] (res w)) as [r3 [x|]].
  - apply (f_equal fst) in Hr. cbn [fst] in Hr. subst r3. cbn [fst] in *. split.
    + apply Hframe.
      repeat (apply Forall_cons; split;
              [ cbn [site_files]; intros Hx;
                apply list_elem_of_singleton in Hx; by apply Hne | ]).
      apply Forall_nil_2.
    + apply Hconn; [ | reflexivity ].
      repeat (apply Forall_cons; split;
              [ intros r0 <-; cbn [site_action site_partial]; split;
                first [ reflexivity
                      | by destruct (progress env SWrite)
                      | unfold read_file; by destruct (fs r0 !! testFile env)
                      | apply unlink_file_conn ] | ]).
      apply Forall_nil_2.
  - apply run_sites_fail_in in Hr. exfalso.
    unfold sql_run_sites, all_sites in Hr. cbn [drop] in Hr.
    repeat (apply elem_of_cons in Hs as [->|Hs];
            [ repeat (apply elem_of_cons in Hr as [Hr|Hr]; [ discriminate Hr | ]);
              by apply elem_of_nil in Hr | ]).
    by apply elem_of_nil in Hs.
Qed.

(** ** The further statements at sample inputs *)

Lemma bench_simple_effect_witness :
  ∃ w', bench_simple quiet_env stale_text_world = Ok tt w'
        ∧ fs (res w') !! testFile quiet_env = None
        ∧ now w' = 6%nat.
Proof.
  destruct (bench_simple_effect quiet_env stale_text_world eq_refl eq_refl eq_refl)
    as (w' & Hw & Hf & _ & Hn & _).
  exists w'. split; [ exact Hw | ]. split; [ | exact Hn ].
  rewrite Hf. apply lookup_delete_eq.
Defined.

Lemma bench_succeeds_fresh_witness :
  ∃ w', bench quiet_env stale_text_world = Ok tt w' ∧ now w' = 20%nat.
Proof.
  destruct (bench_succeeds_fresh quiet_env stale_text_world (fun _ => eq_refl))
    as (w' & Hw & Hn & _).
  - left. vm_compute. reflexivity.
  - exists w'. split; [ exact Hw | exact Hn ].
Defined.

Lemma rerun_after_fresh_run_witness :
  ∃ w2, bench quiet_env (world_of (bench create_fault_env fresh_world)) = Ok tt w2.
Proof.
  exact (rerun_after_fresh_run create_fault_env quiet_env fresh_world
           eq_refl (fun _ => eq_refl) (or_introl eq_refl)).
Defined.

Lemma connection_closed_after_success_witness :
  ∃ w', bench quiet_env fresh_world = Ok tt w' ∧ conn (res w') = None.
Proof.
  destruct quiet_run as [r' Hr].
  eexists. split; [ exact Hr | ].
  exact (connection_closed_after_success quiet_env fresh_world _ Hr).
Defined.

Lemma read_fault_run :
  ∃ w', bench read_fault_env fresh_world = Throw (Fault "EIO: i/o error, read") w'
        ∧ last (events w') = Some (Raise SRead (Fault "EIO: i/o error, read")).
Proof.
  rewrite bench_run. unfold outcome.
  cbn [all_sites run_sites inject read_fault_env site_action write_file].
  eexists. split; [ reflexivity | ]. cbn [events fresh_world world_with app].
  cbn [site_index take map all_sites]. reflexivity.
Qed.

Lemma text_file_left_on_failure_witness :
  ∃ w', bench read_fault_env fresh_world = Throw (Fault "EIO: i/o error, read") w'
        ∧ fs (res w') !! testFile read_fault_env = Some (Bytes (utf8_encode testData)).
Proof.
  destruct read_fault_run as (w' & Hw & Hl).
  exists w'. split; [ exact Hw | ].
  exact (text_file_left_on_failure read_fault_env fresh_world _ w' SRead Hw Hl
           (or_introl eq_refl)).
Defined.

Lemma garbage_run_last :
  ∃ w', bench quiet_env garbage_world = Throw SQLITE_NOTADB w'
        ∧ last (events w') = Some (Raise SDrop SQLITE_NOTADB).
Proof.
  destruct garbage_run as [r' Hr]. eexists. split; [ exact Hr | ].
  cbn [events]. apply last_snoc.
Qed.

Lemma database_left_on_failure_witness :
  ∃ w', bench quiet_env garbage_world = Throw SQLITE_NOTADB w'
        ∧ is_Some (fs (res w') !! dbPath quiet_env)
        ∧ conn (res w') = Some (dbPath quiet_env).
Proof.
  destruct garbage_run_last as (w' & Hw & Hl).
  destruct (database_left_on_failure quiet_env garbage_world _ w' SDrop Hw Hl)
    as (Hf & _ & Hc).
  - apply list_elem_of_here.
  - exists w'. split; [ exact Hw | ]. split; [ exact Hf | ].
    apply Hc. discriminate.
Defined.

Lemma total_covers_sql_timings_witness :
  ∃ w' simple sql total,
    bench quiet_env fresh_world = Ok tt w'
    ∧ stdout w' = map render (simple ++ sql ++ [total])
    ∧ length sql = 6%nat
    ∧ sum_durations sql <= duration total.
Proof.
  destruct quiet_run as [r' Hr].
  destruct (total_covers_sql_timings quiet_env fresh_world _ quiet_clock_monotonic Hr)
    as (simple & sql & total & Hout & _ & Hlen & _ & Hsum).
  eexists _, simple, sql, total. split; [ exact Hr | ].
  split; [ exact Hout | ]. split; [ exact Hlen | exact Hsum ].
Defined.

Lemma agree_refl ks (d : gmap string table) : agree ks d d.
Proof. by intros k _. Qed.

Lemma fixture_load_twice_fails_witness :
  ∃ w', insertTestData quiet_env "/tmp/sql_benchmark.db" leftover_world
        = Throw (SQLITE_CONSTRAINT "UNIQUE constraint failed: customers.email") w'
        ∧ load "/tmp/sql_benchmark.db" (res w') = inr fixture_db.
Proof.
  destruct (fixture_load_twice_fails quiet_env leftover_world "/tmp/sql_benchmark.db"
              fixture_db eq_refl leftover_world_load (agree_refl _ _))
    as (w' & Hw & Hl & _).
  exists w'. split; [ exact Hw | exact Hl ].
Defined.

Lemma fixture_load_without_schema_fails_witness :
  ∃ w', insertTestData quiet_env "/tmp/sql_benchmark.db" opened_world
        = Throw (SQLITE_ERROR "no such table: customers") w'
        ∧ load "/tmp/sql_benchmark.db" (res w') = inr ∅.
Proof.
  destruct (fixture_load_without_schema_fails quiet_env opened_world
              "/tmp/sql_benchmark.db" ∅ eq_refl opened_world_load (lookup_empty _))
    as (w' & Hw & Hl & _).
  exists w'. split; [ exact Hw | exact Hl ].
Defined.

Lemma schema_step_partial_witness :
  ∃ w' d',
    createSchema create_fault_env "/tmp/sql_benchmark.db" leftover_world
    = Throw (Fault "SQLITE_FULL: database or disk is full") w'
    ∧ load "/tmp/sql_benchmark.db" (res w') = inr d'
    ∧ (∃ tb, d' !! "customers"%string = Some tb ∧ tbl_rows tb = [])
    ∧ d' !! "orders"%string = None.
Proof.
  destruct (schema_step_partial create_fault_env leftover_world
              "/tmp/sql_benchmark.db" fixture_db _ eq_refl eq_refl leftover_world_load)
    as (w' & d' & Hw & Hl & Hmade & Hgone & _).
  exists w', d'. split; [ exact Hw | ]. split; [ exact Hl | ]. split.
  - apply Hmade. apply list_elem_of_here.
  - apply Hgone.
    + apply list_elem_of_In. cbn. tauto.
    + intros H. vm_compute in H.
      repeat (apply elem_of_cons in H as [H|H]; [ discriminate H | ]).
      by apply elem_of_nil in H.
Defined.

Lemma queries_need_only_schema_witness :
  ∃ w1, createSchema quiet_env "/tmp/sql_benchmark.db" opened_world = Ok tt w1
        ∧ sqlite_all "/tmp/sql_benchmark.db" join_query (res w1)
          = (res w1, inr Unevaluated).
Proof.
  destruct (queries_need_only_schema quiet_env opened_world "/tmp/sql_benchmark.db" ∅
              eq_refl eq_refl opened_world_load) as [(w1 & Hw & Hq) _].
  exists w1. split; [ exact Hw | ]. apply Hq. apply list_elem_of_here.
Defined.

Lemma fixture_references_hold_witness :
  ∃ w1 w2 d2,
    createSchema quiet_env "/tmp/sql_benchmark.db" opened_world = Ok tt w1
    ∧ insertTestData quiet_env "/tmp/sql_benchmark.db" w1 = Ok tt w2
    ∧ load "/tmp/sql_benchmark.db" (res w2) = inr d2
    ∧ references_hold d2 = true.
Proof.
  exact (fixture_references_hold quiet_env opened_world "/tmp/sql_benchmark.db" ∅
           eq_refl eq_refl eq_refl eq_refl eq_refl eq_refl opened_world_load).
Defined.

Lemma simple_failure_spares_database_witness :
  ∃ w', bench read_fault_env fresh_world = Throw (Fault "EIO: i/o error, read") w'
        ∧ fs (res w') !! dbPath read_fault_env = None
        ∧ conn (res w') = None.
Proof.
  destruct read_fault_run as (w' & Hw & Hl).
  destruct (simple_failure_spares_database read_fault_env fresh_world _ w' SRead Hw Hl)
    as (Hf & Hc).
  - apply list_elem_of_further, list_elem_of_here.
  - exists w'. split; [ exact Hw | ]. split; [ by rewrite Hf | exact Hc ].
Defined.

